(** * solc-typed-ast: compiler-output intake, the ContractDefinition node
      the structural sanity checker and the copy of subtrees

    A shallow embedding of
    - [src/compile/utils.ts] ([consistentlyContainsOneOf],
      [parsePathRemapping], [fillFilesFromSources], [detectCompileErrors],
      [compileJsonData]),
    - [src/ast/implementation/declaration/contract_definition.ts]
      (the constructor, the [documentation] and [vScope] accessors,
      [vLinearizedBaseContracts], [isSubclassOf]),
    - [src/types/utils.ts] ([specializeType], [generalizeType],
      [enumToIntType]),
    - the sanity checker ([inCtx], [checkVFieldCtx], [checkFieldAndVFieldMatch],
      [checkDirectChildren], [checkSane], [isSane]),
    - the entry point of the reader and the deep copy of the node factory,
      as the specification describes them,
    together with the properties the specification states about them.

    The embedding comes first, module by module; the notions of the
    specification and the sample inputs follow; the properties come last. *)

From Stdlib Require Import ZArith String List Bool Lia.
From stdpp Require Import base option list strings gmap pretty.

Set Warnings "-register-all".

Local Open Scope string_scope.
Local Open Scope list_scope.
Local Open Scope Z_scope.

(** ** Exceptions as results

    A JavaScript function either returns a value or throws; [result E A]
    is the sum of the two, with the usual bind. *)

Inductive result (E A : Type) : Type :=
| Returns (a : A)
| Throws (e : E).
Arguments Returns {E A} a.
Arguments Throws {E A} e.

Definition bind {E A B} (m : result E A) (k : A → result E B) : result E B :=
  match m with
  | Returns a => k a
  | Throws e => Throws e
  end.

Notation "'do' x <- m ; k" := (bind m (λ x, k))
  (at level 10, x name, m at level 100, k at level 200).

(** [for (const x of xs) body(x)] where [body] may throw. *)
Fixpoint forEach {E A} (body : A → result E unit) (xs : list A) : result E unit :=
  match xs with
  | [] => Returns ()
  | x :: xs' => do _ <- body x; forEach body xs'
  end.

(** ** JSON values as the compiler emits them *)

Module Json.

Inductive json : Type :=
| JUndefined                       (* the value of an absent property *)
| JNull
| JBool (b : bool)
| JNum (n : Z)
| JStr (s : string)
| JArr (items : list json)
| JObj (fields : list (string * json)).

(** Property lookup in an object literal: the first binding of the key. *)
Fixpoint assoc {A} (k : string) (l : list (string * A)) : option A :=
  match l with
  | [] => None
  | (k', v) :: l' => if String.eqb k k' then Some v else assoc k l'
  end.

(** [s.match(pat)] for a pattern without metacharacters: does [pat] occur
    somewhere in [s]? *)
Fixpoint occursIn (pat s : string) : bool :=
  String.prefix pat s ||
  match s with
  | EmptyString => false
  | String _ s' => occursIn pat s'
  end.

(** The double quote, as a string. *)
Definition quote : string := String (Ascii.ascii_of_nat 34) EmptyString.

(** [x instanceof Object] for a parsed JSON value. *)
Definition instanceofObject (j : json) : bool :=
  match j with
  | JObj _ | JArr _ => true
  | _ => false
  end.

(** Truthiness, as used by [section && ...]. *)
Definition truthy (j : json) : bool :=
  match j with
  | JUndefined | JNull => false
  | JBool b => b
  | JNum n => negb (n =? 0)
  | JStr s => negb (String.eqb s EmptyString)
  | JArr _ | JObj _ => true
  end.

(** [j.k]: reading a property off [undefined] or [null] is a TypeError,
    an absent property reads as [undefined]. Arrays and primitives own none
    of the property names the compile utilities ask for. *)
Inductive exn : Type :=
| TypeError
| Error (msg : string)
| CompileFailedError (failures : list (option string * list json)).

Definition getProp (j : json) (k : string) : result exn json :=
  match j with
  | JUndefined | JNull => Throws TypeError
  | JObj fs => Returns (default JUndefined (assoc k fs))
  | _ => Returns JUndefined
  end.

(** [k in j], for the property names the compile utilities ask for: a
    TypeError unless [j] is an object or an array. *)
Definition hasProp (k : string) (j : json) : result exn bool :=
  match j with
  | JObj fs => Returns (bool_decide (is_Some (assoc k fs)))
  | JArr _ => Returns false
  | _ => Throws TypeError
  end.

(** [Object.entries] and [Object.values]: for an object literal the bindings
    in their order of enumeration, for an array its indices. *)
Definition indexed (items : list json) : list (string * json) :=
  imap (λ i x, (pretty i, x)) items.

Definition entries (j : json) : list (string * json) :=
  match j with
  | JObj fs => fs
  | JArr items => indexed items
  | _ => []
  end.

Definition values (j : json) : list json := (entries j).*2.

(** [sections.every((section) => property in section)] *)
Fixpoint every (property : string) (sections : list json) : result exn bool :=
  match sections with
  | [] => Returns true
  | s :: rest =>
      do b <- hasProp property s;
      if b then every property rest else Returns false
  end.

(** [consistentlyContainsOneOf(sources, ...properties)] *)
Fixpoint containsLoop (sections : list json) (properties : list string)
  : result exn bool :=
  match properties with
  | [] => Returns false
  | p :: ps =>
      do b <- every p sections;
      if b then Returns true else containsLoop sections ps
  end.

Definition consistentlyContainsOneOf (sources : json) (properties : list string)
  : result exn bool :=
  containsLoop (values sources) properties.

(** [fillFilesFromSources(files, sources)]: [files] is a JavaScript [Map]. *)
Definition fillStep (files : gmap string string) (entry : string * json)
  : gmap string string :=
  let '(fileName, section) := entry in
  if truthy section then
    match getProp section "source" with
    | Returns (JStr src) => <[fileName := src]> files
    | _ => files
    end
  else files.

Definition fillFilesFromSources (files : gmap string string) (sources : json)
  : gmap string string :=
  foldl fillStep files (entries sources).

(** [detectCompileErrors(data)] *)
Definition detectOne (error : json) : result exn (list json) :=
  match error with
  | JObj _ | JArr _ | JNull =>            (* typeof error === "object" *)
      do sev <- getProp error "severity";
      match sev with
      | JStr "error" => do msg <- getProp error "formattedMessage"; Returns [msg]
      | _ => Returns []
      end
  | JStr s =>                              (* typeof error === "string" *)
      if occursIn "Warning" s then Returns [] else Returns [error]
  | _ => Returns []
  end.

Fixpoint detectLoop (errs : list json) : result exn (list json) :=
  match errs with
  | [] => Returns []
  | e :: rest =>
      do here <- detectOne e;
      do later <- detectLoop rest;
      Returns (here ++ later)
  end.

Definition detectCompileErrors (data : json) : result exn (list json) :=
  do errs <- getProp data "errors";
  match errs with
  | JArr es => detectLoop es
  | _ => Returns []
  end.

(** The value [compileJsonData] resolves to. *)
Record CompileResult : Type := mkCompileResult {
  data : json;
  compilerVersion : option string;
  files : gmap string string
}.

(** What a call of [compileJsonData] ends in: it resolves to a result, it
    throws, or (sections holding raw [source] text only) it hands the texts
    to the compiler, an external collaborator. *)
Inductive outcome : Type :=
| Resolved (r : CompileResult)
| Raised (e : exn)
| CompileRequest (texts : list (string * json)).

Definition astProps : list string := ["ast"; "legacyAST"; "AST"].

Fixpoint textsLoop (es : list (string * json)) : result exn (list (string * json)) :=
  match es with
  | [] => Returns []
  | (fileName, fileData) :: rest =>
      do src <- getProp fileData "source";
      do later <- textsLoop rest;
      Returns ((fileName, src) :: later)
  end.

Definition sourceTexts (sources : json) : result exn (list (string * json)) :=
  textsLoop (entries sources).

Definition compileJsonData (fileName : string) (data : json) : outcome :=
  if negb (instanceofObject data) then
    Raised (Error ("Unable to find required properties in " +:+ quote +:+ fileName +:+ quote))
  else
  match getProp data "sources" with
  | Throws e => Raised e
  | Returns sources =>
    if negb (instanceofObject sources) then
      Raised (Error ("Unable to find required properties in " +:+ quote +:+ fileName +:+ quote))
    else
    match consistentlyContainsOneOf sources astProps with
    | Throws e => Raised e
    | Returns true =>
        match detectCompileErrors data with
        | Throws e => Raised e
        | Returns [] =>
            Resolved (mkCompileResult data None (fillFilesFromSources ∅ sources))
        | Returns errors => Raised (CompileFailedError [(None, errors)])
        end
    | Returns false =>
        match consistentlyContainsOneOf sources ["source"] with
        | Throws e => Raised e
        | Returns true =>
            match sourceTexts sources with
            | Throws e => Raised e
            | Returns texts => CompileRequest texts
            end
        | Returns false =>
            Raised (Error "Unable to process data structure: neither consistent AST or code values are present")
        end
    end
  end.

End Json.


(** *** Notions the specification uses for the intake, and sample inputs *)

Module JsonProps.
Import Json.

(** [k] is an own property of the object [j]. *)
Definition ownsProp (k : string) (j : json) : bool :=
  match j with
  | JObj fs => bool_decide (is_Some (assoc k fs))
  | _ => false
  end.

Definition isObjectLiteral (j : json) : bool :=
  match j with
  | JObj _ => true
  | _ => false
  end.

(** A section carries some typed-AST field, whichever it is. *)
Definition carriesAst (section : json) : bool :=
  existsb (λ p, ownsProp p section) astProps.

(** An entry of [errors] that counts as a compile error. *)
Definition isErrorEntry (e : json) : bool :=
  match e with
  | JObj fs =>
      match assoc "severity" fs with
      | Some (JStr "error") => true
      | _ => false
      end
  | JStr s => negb (occursIn "Warning" s)
  | _ => false
  end.

(** What is pushed for an entry that counts: the [formattedMessage] of an
    object, a string as it is. *)
Definition reported (e : json) : json :=
  match e with
  | JObj fs => default JUndefined (assoc "formattedMessage" fs)
  | _ => e
  end.

(** Two source sections, one with a modern [ast], one with a [legacyAST]. *)
Definition mixedSources : json :=
  JObj [("a.sol", JObj [("ast", JObj [("nodeType", JStr "SourceUnit")])]);
        ("b.sol", JObj [("legacyAST", JObj [("name", JStr "SourceUnit")])])].

Definition mixedData : json := JObj [("sources", mixedSources)].

(** A modern output with one error, one warning and two legacy strings. *)
Definition failedData : json :=
  JObj [("sources", JObj [("a.sol", JObj [("ast", JObj []); ("source", JStr "contract C {")])]);
        ("errors",
         JArr [JObj [("severity", JStr "error"); ("formattedMessage", JStr "ParserError: a.sol:1")];
               JObj [("severity", JStr "warning"); ("formattedMessage", JStr "pragma missing")];
               JStr "a.sol:1:1: Warning: unused";
               JStr "a.sol:1:1: Error: expected }"])].

End JsonProps.

(** ** The typed tree as the sanity checker sees it *)

Module AST.

(** The node classes the checker imports, and [OtherNode] for an instance
    of the base class or of a class registered by a user of the reader. *)
Inductive NodeType : Type :=
| ArrayTypeName | Assignment | BinaryOperation | Block | Break | Conditional
| Continue | ContractDefinition | DoWhileStatement | ElementaryTypeName
| ElementaryTypeNameExpression | EmitStatement | EnumDefinition | EnumValue
| ErrorDefinition | EventDefinition | ExpressionStatement | ForStatement
| FunctionCall | FunctionCallOptions | FunctionDefinition | FunctionTypeName
| Identifier | IdentifierPath | IfStatement | ImportDirective | IndexAccess
| IndexRangeAccess | InheritanceSpecifier | InlineAssembly | Literal | Mapping
| MemberAccess | ModifierDefinition | ModifierInvocation | NewExpression
| OverrideSpecifier | ParameterList | PlaceholderStatement | PragmaDirective
| Return | RevertStatement | SourceUnit | StructDefinition
| StructuredDocumentation | Throw | TryCatchClause | TryStatement
| TupleExpression | UnaryOperation | UncheckedBlock | UserDefinedTypeName
| UserDefinedValueTypeDefinition | UsingForDirective | VariableDeclaration
| VariableDeclarationStatement | WhileStatement
| OtherNode (className : string).

Global Instance NodeType_eq_dec : EqDecision NodeType.
Proof. solve_decision. Defined.

(** [node instanceof T] *)
Definition instanceof (t : NodeType) (node : NodeType) : bool := bool_decide (node = t).

(** A reference to a node object: the object's identity ([addr], what [===]
    compares), with the two attributes that are fixed when the object is
    constructed, its [id] and its class. *)
Record NodeRef : Type := mkRef {
  addr : nat;
  id : Z;
  type : NodeType
}.

Definition sameNode (a b : NodeRef) : bool := Nat.eqb (addr a) (addr b).

(** What a property of a node may hold. *)
Inductive value : Type :=
| VUndefined
| VNull
| VBool (b : bool)
| VNum (n : Z)
| VStr (s : string)
| VNode (r : NodeRef)
| VArr (items : list value)
| VMap (entries : list (string * value)).

(** A node with the subtree below it: its own reference, the [parent]
    back-pointer (the address of an object, or undefined), the values its
    fields and accessors yield, and what its [children] accessor yields. *)
Inductive ASTNode : Type := mkNode {
  self : NodeRef;
  parent : option nat;
  props : list (string * value);
  children : list ASTNode
}.

(** [node[prop]] *)
Definition get (node : ASTNode) (prop : string) : value :=
  default VUndefined (Json.assoc prop (props node)).

(** Modelled from the spec: [node.getChildren(true)] of the base class
    [ASTNode], which is not among the sources: the node and all below it,
    in pre-order. *)
Fixpoint getChildren (node : ASTNode) : list ASTNode :=
  node :: flat_map getChildren (children node).

(** Modelled from the spec: the context arena [ASTContext], whose class is
    not among the sources: an id counter and a mapping from id to node;
    a node is a member when the node the arena keeps under the id of the
    node is that node itself. *)
Record ASTContext : Type := mkContext {
  ctxId : Z;
  lastId : Z;
  map : gmap Z NodeRef
}.

(** Modelled from the spec: [ctx.locate(id)], the lookup of an id in the
    arena; undefined for an id it does not know. *)
Definition locate (ctx : ASTContext) (i : Z) : option NodeRef := map ctx !! i.

(** Modelled from the spec: [ctx.contains(node)], the membership predicate
    of the arena. *)
Definition contains (ctx : ASTContext) (node : NodeRef) : bool :=
  match locate ctx (id node) with
  | Some r => sameNode r node
  | None => false
  end.

(** *** Errors *)

Inductive key : Type :=
| Whole
| AtIndex (i : nat)
| AtKey (k : string).

(** The text of an error, one constructor per [throw] of the checker, with
    the values its template interpolates. *)
Inductive message : Type :=
| PropertyNotInContext (node : NodeRef) (prop : string) (at_ : key) (val : NodeRef)
| PropertyNotASTNode (node : NodeRef) (prop : string) (at_ : key)
| ViewNotASTNode (node : NodeRef) (field vField : string) (at_ : key)
| FieldDiffers (node : NodeRef) (field vField : string) (at_ : key) (val1 : Z) (val2 : NodeRef)
| ViewNotArray (node : NodeRef) (field vField : string)
| LengthsDiffer (node : NodeRef) (field vField : string) (len1 len2 : nat)
| FieldNotNumber (node : NodeRef) (field : string) (idx : nat)
| FieldNotNumberOrArray (node : NodeRef) (field : string)
| NotDirectChild (node : NodeRef) (field : string) (at_ : key) (val : NodeRef)
| ContainerHoldsNonNode (node : NodeRef) (field : string)
| FieldNotNodeOrArray (node : NodeRef) (field : string)
| NotCovered (fields : list string) (missingChild : option NodeRef)
| DifferentContext (node : NodeRef) (ctx : Z)
| WrongParent (child node : NodeRef) (got : option nat)
| ExportedSymbolMissing (name : string) (symId : value) (ctx : Z)
| ExportedSymbolMismatch (name : string) (symId : value) (symNode : NodeRef)
| SymbolAliasesMismatch (node : NodeRef) (len vLen : nat)
| ImportedSymbolNotInContext (def : value) (node : NodeRef)
| ScopeAndParentDiffer (node : NodeRef)
| UnknownASTNodeType (node : NodeRef).

Inductive exn : Type :=
| TypeError
| Error (m : message)
| InsaneASTError (m : message).

Definition check := result exn unit.

(** *** The helpers of the checker *)

(** [inCtx(arg, ctx)]; an argument that is neither a node nor iterable makes
    the [for ... of] a TypeError. *)
Fixpoint inCtx (arg : value) (ctx : ASTContext) : result exn bool :=
  match arg with
  | VNode r => Returns (contains ctx r)
  | VArr items =>
      (fix loop (l : list value) : result exn bool :=
         match l with
         | [] => Returns true
         | node :: l' =>
             do b <- inCtx node ctx;
             if b then loop l' else Returns false
         end) items
  | _ => Throws TypeError
  end.

(** [checkVFieldCtx(node, prop, ctx)] *)
Definition checkVFieldCtx (node : ASTNode) (prop : string) (ctx : ASTContext) : check :=
  match get node prop with
  | VNode r =>
      if contains ctx r then Returns ()
      else Throws (Error (PropertyNotInContext (self node) prop Whole r))
  | VArr items =>
      forEach (λ '(idx, el),
                 match el with
                 | VNode r =>
                     do b <- inCtx (VArr items) ctx;
                     if b then Returns ()
                     else Throws (Error (PropertyNotInContext (self node) prop (AtIndex idx) r))
                 | _ => Throws (Error (PropertyNotASTNode (self node) prop (AtIndex idx)))
                 end)
              (imap pair items)
  | _ => Throws (Error (PropertyNotASTNode (self node) prop Whole))
  end.

(** The loop of [checkFieldAndVFieldMatch] over two arrays of equal length. *)
Fixpoint matchElements (node : NodeRef) (field vField : string)
    (idx : nat) (val1 val2 : list value) : check :=
  match val1, val2 with
  | el1 :: rest1, el2 :: rest2 =>
      match el1 with
      | VNum n =>
          match el2 with
          | VNode r =>
              if n =? id r then matchElements node field vField (S idx) rest1 rest2
              else Throws (InsaneASTError (FieldDiffers node field vField (AtIndex idx) n r))
          | _ => Throws (Error (ViewNotASTNode node field vField (AtIndex idx)))
          end
      | _ => Throws (Error (FieldNotNumber node field idx))
      end
  | _, _ => Returns ()
  end.

(** [checkFieldAndVFieldMatch(node, field, vField)] *)
Definition checkFieldAndVFieldMatch (node : ASTNode) (field vField : string) : check :=
  match get node field with
  | VNum n =>
      match get node vField with
      | VNode r =>
          if n =? id r then Returns ()
          else Throws (InsaneASTError (FieldDiffers (self node) field vField Whole n r))
      | _ => Throws (Error (ViewNotASTNode (self node) field vField Whole))
      end
  | VArr val1 =>
      match get node vField with
      | VArr val2 =>
          if negb (Nat.eqb (length val1) (length val2)) then
            Throws (InsaneASTError
                      (LengthsDiffer (self node) field vField (length val1) (length val2)))
          else matchElements (self node) field vField 0 val1 val2
      | _ => Throws (Error (ViewNotArray (self node) field vField))
      end
  | _ => Throws (Error (FieldNotNumberOrArray (self node) field))
  end.

(** The sets of [checkDirectChildren] hold node objects; a set of their
    addresses stands for them. *)
Definition nodeSet (nodes : list ASTNode) : gset nat :=
  list_to_set ((λ c, addr (self c)) <$> nodes).

(** One element of an array or map field. *)
Definition coverElement (node : NodeRef) (field : string) (at_ : key)
    (directChildren computedChildren : gset nat) (el : value)
  : result exn (gset nat) :=
  match el with
  | VNull => Returns computedChildren
  | VNode r =>
      if decide (addr r ∈ directChildren) then Returns ({[addr r]} ∪ computedChildren)
      else Throws (InsaneASTError (NotDirectChild node field at_ r))
  | _ => Throws (Error (ContainerHoldsNonNode node field))
  end.

Fixpoint coverArray (node : NodeRef) (field : string) (i : nat)
    (directChildren computedChildren : gset nat) (val : list value)
  : result exn (gset nat) :=
  match val with
  | [] => Returns computedChildren
  | el :: rest =>
      do computed <- coverElement node field (AtIndex i) directChildren computedChildren el;
      coverArray node field (S i) directChildren computed rest
  end.

Fixpoint coverMap (node : NodeRef) (field : string)
    (directChildren computedChildren : gset nat) (val : list (string * value))
  : result exn (gset nat) :=
  match val with
  | [] => Returns computedChildren
  | (k, v) :: rest =>
      do computed <- coverElement node field (AtKey k) directChildren computedChildren v;
      coverMap node field directChildren computed rest
  end.

(** The body of the loop over [fields]. *)
Definition coverField (node : ASTNode) (directChildren computedChildren : gset nat)
    (field : string) : result exn (gset nat) :=
  match get node field with
  | VUndefined => Returns computedChildren
  | VNode r =>
      if decide (addr r ∈ directChildren) then Returns ({[addr r]} ∪ computedChildren)
      else Throws (InsaneASTError (NotDirectChild (self node) field Whole r))
  | VArr val => coverArray (self node) field 0 directChildren computedChildren val
  | VMap val => coverMap (self node) field directChildren computedChildren val
  | _ => Throws (Error (FieldNotNodeOrArray (self node) field))
  end.

Fixpoint coverFields (node : ASTNode) (directChildren computedChildren : gset nat)
    (fields : list string) : result exn (gset nat) :=
  match fields with
  | [] => Returns computedChildren
  | field :: rest =>
      do computed <- coverField node directChildren computedChildren field;
      coverFields node directChildren computed rest
  end.

(** [checkDirectChildren(node, ...fields)] *)
Definition checkDirectChildren (node : ASTNode) (fields : list string) : check :=
  let directChildren := nodeSet (children node) in
  do computedChildren <- coverFields node directChildren ∅ fields;
  if (size computedChildren <? size directChildren)%nat then
    let missingChild :=
      find (λ child, bool_decide (addr (self child) ∉ computedChildren)) (children node) in
    Throws (InsaneASTError (NotCovered fields (self <$> missingChild)))
  else Returns ().

(** *** [checkSane] *)

Definition instanceofStructuredDocumentation (v : value) : bool :=
  match v with
  | VNode r => match type r with StructuredDocumentation => true | _ => false end
  | _ => false
  end.

(** The classes that have neither children nor references. *)
Definition isLeaf (t : NodeType) : bool :=
  match t with
  | PragmaDirective | StructuredDocumentation | EnumValue | Break | Continue
  | InlineAssembly | PlaceholderStatement | Throw | ElementaryTypeName | Literal => true
  | _ => false
  end.

(** [if (node.documentation instanceof StructuredDocumentation) { ... }]
    followed by [checkDirectChildren(node, ...fields)]. *)
Definition checkDocumentedChildren (node : ASTNode) (ctx : ASTContext)
    (fields : list string) : check :=
  if instanceofStructuredDocumentation (get node "documentation") then
    do _ <- checkVFieldCtx node "documentation" ctx;
    checkDirectChildren node (fields ++ ["documentation"])
  else checkDirectChildren node fields.

(** [child.parent !== node] for each of [node.children]. *)
Definition checkParent (node : ASTNode) (child : ASTNode) : check :=
  match parent child with
  | Some p =>
      if Nat.eqb p (addr (self node)) then Returns ()
      else Throws (InsaneASTError (WrongParent (self child) (self node) (parent child)))
  | None => Throws (InsaneASTError (WrongParent (self child) (self node) None))
  end.

(** The loop over [node.exportedSymbols] of a source unit; the two fields
    are declared as maps, read at another type they give a TypeError. *)
Definition checkExportedSymbol (node : ASTNode) (ctx : ASTContext)
    (entry : string * value) : check :=
  let '(name, symId) := entry in
  let symNode := match symId with VNum n => locate ctx n | _ => None end in
  match symNode with
  | None => Throws (InsaneASTError (ExportedSymbolMissing name symId (ctxId ctx)))
  | Some r =>
      match get node "vExportedSymbols" with
      | VMap vExportedSymbols =>
          match Json.assoc name vExportedSymbols with
          | Some (VNode r') =>
              if sameNode r r' then Returns ()
              else Throws (InsaneASTError (ExportedSymbolMismatch name symId r))
          | _ => Throws (InsaneASTError (ExportedSymbolMismatch name symId r))
          end
      | _ => Throws TypeError
      end
  end.

Definition checkExportedSymbols (node : ASTNode) (ctx : ASTContext) : check :=
  match get node "exportedSymbols" with
  | VMap exportedSymbols => forEach (checkExportedSymbol node ctx) exportedSymbols
  | _ => Throws TypeError
  end.

(** The two checks on the symbol aliases of an import; [vSymbolAliases] is
    declared an array of pairs. *)
Definition checkSymbolAliases (node : ASTNode) (ctx : ASTContext) : check :=
  match get node "vSymbolAliases" with
  | VArr vSymbolAliases =>
      do _ <- (if Nat.eqb (length vSymbolAliases) 0 then Returns ()
               else match get node "symbolAliases" with
                    | VArr symbolAliases =>
                        if Nat.eqb (length vSymbolAliases) (length symbolAliases) then Returns ()
                        else Throws (InsaneASTError
                                       (SymbolAliasesMismatch (self node) (length symbolAliases)
                                                              (length vSymbolAliases)))
                    | _ => Throws TypeError
                    end);
      forEach (λ alias,
                 match alias with
                 | VArr (def :: _) =>
                     do b <- inCtx def ctx;
                     if b then Returns ()
                     else Throws (InsaneASTError (ImportedSymbolNotInContext def (self node)))
                 | _ => Throws TypeError
                 end)
              vSymbolAliases
  | _ => Throws TypeError
  end.

(** [node.vScope !== node.parent] *)
Definition differsFromParent (v : value) (p : option nat) : bool :=
  match v, p with
  | VNode r, Some a => negb (Nat.eqb (addr r) a)
  | VUndefined, None => false
  | _, _ => true
  end.

(** [node.referencedDeclaration !== null && node.vReferencedDeclaration !== undefined] *)
Definition referenceResolved (node : ASTNode) : bool :=
  match get node "referencedDeclaration", get node "vReferencedDeclaration" with
  | VNull, _ => false
  | _, VUndefined => false
  | _, _ => true
  end.

Definition checkReferencedDeclaration (node : ASTNode) (ctx : ASTContext) : check :=
  do _ <- checkFieldAndVFieldMatch node "referencedDeclaration" "vReferencedDeclaration";
  checkVFieldCtx node "vReferencedDeclaration" ctx.

Definition checkScope (node : ASTNode) (ctx : ASTContext) : check :=
  do _ <- checkFieldAndVFieldMatch node "scope" "vScope";
  checkVFieldCtx node "vScope" ctx.

(** The chain of [instanceof] tests in the body of the loop. *)
Definition checkByType (node : ASTNode) (ctx : ASTContext) : check :=
  match type (self node) with
  | SourceUnit =>
      do _ <- checkExportedSymbols node ctx;
      checkDirectChildren node
        ["vPragmaDirectives"; "vImportDirectives"; "vContracts"; "vEnums"; "vStructs";
         "vFunctions"; "vVariables"; "vErrors"; "vUserDefinedValueTypes"]
  | ImportDirective =>
      do _ <- checkSymbolAliases node ctx;
      do _ <- checkScope node ctx;
      do _ <- checkFieldAndVFieldMatch node "sourceUnit" "vSourceUnit";
      checkVFieldCtx node "vSourceUnit" ctx
  | InheritanceSpecifier => checkDirectChildren node ["vBaseType"; "vArguments"]
  | ModifierInvocation =>
      do _ <- checkVFieldCtx node "vModifier" ctx;
      checkDirectChildren node ["vModifierName"; "vArguments"]
  | OverrideSpecifier => checkDirectChildren node ["vOverrides"]
  | ParameterList =>
      do _ <- checkVFieldCtx node "vParameters" ctx;
      checkDirectChildren node ["vParameters"]
  | UsingForDirective => checkDirectChildren node ["vLibraryName"; "vTypeName"]
  | ContractDefinition =>
      do _ <- checkScope node ctx;
      do _ <- (if differsFromParent (get node "vScope") (parent node)
               then Throws (InsaneASTError (ScopeAndParentDiffer (self node)))
               else Returns ());
      do _ <- checkFieldAndVFieldMatch node "linearizedBaseContracts" "vLinearizedBaseContracts";
      do _ <- checkVFieldCtx node "vLinearizedBaseContracts" ctx;
      do _ <- checkFieldAndVFieldMatch node "usedErrors" "vUsedErrors";
      do _ <- checkVFieldCtx node "vUsedErrors" ctx;
      checkDocumentedChildren node ctx
        ["documentation"; "vInheritanceSpecifiers"; "vStateVariables"; "vModifiers";
         "vErrors"; "vEvents"; "vFunctions"; "vUsingForDirectives"; "vStructs"; "vEnums";
         "vUserDefinedValueTypes"; "vConstructor"]
  | EnumDefinition =>
      do _ <- checkVFieldCtx node "vScope" ctx;
      checkDirectChildren node ["vMembers"]
  | ErrorDefinition =>
      do _ <- checkVFieldCtx node "vScope" ctx;
      checkDocumentedChildren node ctx ["vParameters"]
  | EventDefinition =>
      do _ <- checkVFieldCtx node "vScope" ctx;
      checkDocumentedChildren node ctx ["vParameters"]
  | FunctionDefinition =>
      do _ <- checkScope node ctx;
      checkDocumentedChildren node ctx
        ["vParameters"; "vOverrideSpecifier"; "vModifiers"; "vReturnParameters"; "vBody"]
  | ModifierDefinition =>
      do _ <- checkVFieldCtx node "vScope" ctx;
      checkDocumentedChildren node ctx ["vParameters"; "vOverrideSpecifier"; "vBody"]
  | StructDefinition =>
      do _ <- checkScope node ctx;
      checkDirectChildren node ["vMembers"]
  | UserDefinedValueTypeDefinition =>
      do _ <- checkVFieldCtx node "vScope" ctx;
      do _ <- checkVFieldCtx node "underlyingType" ctx;
      checkDirectChildren node ["underlyingType"]
  | VariableDeclaration =>
      do _ <- checkScope node ctx;
      checkDocumentedChildren node ctx ["vType"; "vOverrideSpecifier"; "vValue"]
  | Block | UncheckedBlock => checkDirectChildren node ["vStatements"]
  | DoWhileStatement => checkDirectChildren node ["vCondition"; "vBody"]
  | EmitStatement => checkDirectChildren node ["vEventCall"]
  | RevertStatement => checkDirectChildren node ["errorCall"]
  | ExpressionStatement => checkDirectChildren node ["vExpression"]
  | ForStatement =>
      checkDirectChildren node
        ["vInitializationExpression"; "vLoopExpression"; "vCondition"; "vBody"]
  | IfStatement =>
      do _ <- checkVFieldCtx node "vCondition" ctx;
      do _ <- checkVFieldCtx node "vTrueBody" ctx;
      do _ <- (match get node "vFalseBody" with
               | VUndefined => Returns ()
               | _ => checkVFieldCtx node "vFalseBody" ctx
               end);
      checkDirectChildren node ["vCondition"; "vTrueBody"; "vFalseBody"]
  | Return =>
      do _ <- checkFieldAndVFieldMatch node "functionReturnParameters" "vFunctionReturnParameters";
      do _ <- checkVFieldCtx node "vFunctionReturnParameters" ctx;
      checkDirectChildren node ["vExpression"]
  | TryCatchClause => checkDirectChildren node ["vParameters"; "vBlock"]
  | TryStatement => checkDirectChildren node ["vExternalCall"; "vClauses"]
  | VariableDeclarationStatement => checkDirectChildren node ["vDeclarations"; "vInitialValue"]
  | WhileStatement => checkDirectChildren node ["vCondition"; "vBody"]
  | ArrayTypeName => checkDirectChildren node ["vBaseType"; "vLength"]
  | FunctionTypeName => checkDirectChildren node ["vParameterTypes"; "vReturnParameterTypes"]
  | Mapping => checkDirectChildren node ["vKeyType"; "vValueType"]
  | UserDefinedTypeName =>
      do _ <- checkReferencedDeclaration node ctx;
      checkDirectChildren node ["path"]
  | Assignment => checkDirectChildren node ["vLeftHandSide"; "vRightHandSide"]
  | BinaryOperation => checkDirectChildren node ["vLeftExpression"; "vRightExpression"]
  | Conditional =>
      checkDirectChildren node ["vCondition"; "vTrueExpression"; "vFalseExpression"]
  | ElementaryTypeNameExpression =>
      match get node "typeName" with
      | VStr _ => Returns ()
      | _ => checkDirectChildren node ["typeName"]
      end
  | FunctionCall => checkDirectChildren node ["vExpression"; "vArguments"]
  | FunctionCallOptions => checkDirectChildren node ["vExpression"; "vOptionsMap"]
  | Identifier | IdentifierPath =>
      if referenceResolved node then checkReferencedDeclaration node ctx else Returns ()
  | IndexAccess => checkDirectChildren node ["vBaseExpression"; "vIndexExpression"]
  | IndexRangeAccess =>
      checkDirectChildren node ["vBaseExpression"; "vStartExpression"; "vEndExpression"]
  | MemberAccess =>
      do _ <- (if referenceResolved node then checkReferencedDeclaration node ctx
               else Returns ());
      checkDirectChildren node ["vExpression"]
  | NewExpression => checkDirectChildren node ["vTypeName"]
  | TupleExpression => checkDirectChildren node ["vOriginalComponents"; "vComponents"]
  | UnaryOperation =>
      do _ <- checkVFieldCtx node "vSubExpression" ctx;
      checkDirectChildren node ["vSubExpression"]
  | _ => Throws (Error (UnknownASTNodeType (self node)))
  end.

(** The body of the loop of [checkSane] for one node. *)
Definition checkNode (ctx : ASTContext) (node : ASTNode) : check :=
  if negb (contains ctx (self node)) then
    Throws (InsaneASTError (DifferentContext (self node) (ctxId ctx)))
  else
    do _ <- forEach (checkParent node) (children node);
    if isLeaf (type (self node)) then Returns ()
    else checkByType node ctx.

(** [checkSane(unit, ctx)] *)
Definition checkSane (unit : ASTNode) (ctx : ASTContext) : check :=
  forEach (checkNode ctx) (getChildren unit).

(** [isSane(unit, ctx)]; the [console.error] of the caught error is not
    modelled. *)
Definition isSane (unit : ASTNode) (ctx : ASTContext) : result exn bool :=
  match checkSane unit ctx with
  | Returns _ => Returns true
  | Throws (InsaneASTError _) => Returns false
  | Throws e => Throws e
  end.

End AST.

(** ** The class [ContractDefinition] *)

Module Contract.
Import AST.

Inductive ContractKind : Type := KContract | KLibrary | KInterface.

(** The fields of a contract object. [ownChildren] is the private list of
    the base class [ASTNodeWithChildren]; [context] is the arena the node is
    registered in, if any. *)
Record ContractDefinition : Type := mkContract {
  this : NodeRef;
  docString : value;
  name : string;
  nameLocation : option string;
  scope : Z;
  kind : ContractKind;
  abstract : bool;
  fullyImplemented : bool;
  linearizedBaseContracts : list Z;
  usedErrors : list Z;
  ownChildren : list NodeRef;
  context : option ASTContext
}.

Definition withDocString (c : ContractDefinition) (v : value) : ContractDefinition :=
  mkContract (this c) v (name c) (nameLocation c) (scope c) (kind c) (abstract c)
             (fullyImplemented c) (linearizedBaseContracts c) (usedErrors c)
             (ownChildren c) (context c).

Definition withScope (c : ContractDefinition) (s : Z) : ContractDefinition :=
  mkContract (this c) (docString c) (name c) (nameLocation c) s (kind c) (abstract c)
             (fullyImplemented c) (linearizedBaseContracts c) (usedErrors c)
             (ownChildren c) (context c).

Definition withOwnChildren (c : ContractDefinition) (l : list NodeRef) : ContractDefinition :=
  mkContract (this c) (docString c) (name c) (nameLocation c) (scope c) (kind c) (abstract c)
             (fullyImplemented c) (linearizedBaseContracts c) (usedErrors c)
             l (context c).

(** The part of the object graph a method of the contract may write: the
    contract itself and the [parent] back-pointers of the nodes, kept by
    the address of the node. *)
Record State : Type := mkState {
  contract : ContractDefinition;
  parents : gmap nat nat
}.

Inductive exn : Type :=
| ContextNotSet
| NotInCurrentContext (value : NodeRef)
| NotAChild (node : NodeRef).

(** A method: it reads and writes the state, and returns or throws. *)
Definition method (A : Type) : Type := State → result exn A * State.

Definition run {A} (m : method A) (st : State) : result exn A := fst (m st).
Definition exec {A} (m : method A) (st : State) : State := snd (m st).

Definition andThen {A B} (m : method A) (k : A → method B) : method B := λ st,
  match m st with
  | (Returns a, st') => k a st'
  | (Throws e, st') => (Throws e, st')
  end.

Notation "'step' x <- m ; k" := (andThen m (λ x, k))
  (at level 10, x name, m at level 100, k at level 200).

Definition skip : method unit := λ st, (Returns (), st).
Definition throw {A} (e : exn) : method A := λ st, (Throws e, st).

(** Reading the contract, by an accessor that may throw. *)
Definition reading {A} (f : ContractDefinition → result exn A) : method A := λ st,
  (f (contract st), st).

Definition isStructuredDocumentation (r : NodeRef) : bool :=
  instanceof StructuredDocumentation (type r).

(** [this.ownChildren.indexOf(node)] *)
Fixpoint indexOf (node : NodeRef) (l : list NodeRef) : option nat :=
  match l with
  | [] => None
  | x :: l' => if sameNode x node then Some 0%nat else S <$> indexOf node l'
  end.

(** Modelled from the spec: [requiredContext] of the base class [ASTNode],
    which is not among the sources: the context the node belongs to; a node
    that is detached from every context has none to give. *)
Definition requiredContext (c : ContractDefinition) : result exn ASTContext :=
  match context c with
  | Some ctx => Returns ctx
  | None => Throws ContextNotSet
  end.

(** Modelled from the spec: [removeChild] of the base class
    [ASTNodeWithChildren], which is not among the sources: the mutation
    updates the child list of the parent and the parent pointer of the
    child, and nothing else; it fails, before touching anything, for a node
    that is not a child. *)
Definition removeChild (node : NodeRef) : method NodeRef := λ st,
  match indexOf node (ownChildren (contract st)) with
  | None => (Throws (NotAChild node), st)
  | Some index =>
      (Returns node,
       mkState (withOwnChildren (contract st) (delete index (ownChildren (contract st))))
               (delete (addr node) (parents st)))
  end.

(** Modelled from the spec: [replaceChild(newNode, oldNode)] of
    [ASTNodeWithChildren]: [newNode] takes the place of [oldNode] in the
    child list, its parent becomes the owner and [oldNode] loses its
    parent. *)
Definition replaceChild (newNode oldNode : NodeRef) : method NodeRef := λ st,
  match indexOf oldNode (ownChildren (contract st)) with
  | None => (Throws (NotAChild oldNode), st)
  | Some index =>
      (Returns oldNode,
       mkState (withOwnChildren (contract st) (<[index := newNode]> (ownChildren (contract st))))
               (<[addr newNode := addr (this (contract st))]>
                  (delete (addr oldNode) (parents st))))
  end.

(** Modelled from the spec: [insertAtBeginning] of [ASTNodeWithChildren]:
    the node becomes the first child and its parent the owner. *)
Definition insertAtBeginning (node : NodeRef) : method NodeRef := λ st,
  (Returns node,
   mkState (withOwnChildren (contract st) (node :: ownChildren (contract st)))
           (<[addr node := addr (this (contract st))]> (parents st))).

(** Modelled from the spec: [appendChild] of [ASTNodeWithChildren]: the
    node becomes the last child and its parent the owner. *)
Definition appendChild (node : NodeRef) : method NodeRef := λ st,
  (Returns node,
   mkState (withOwnChildren (contract st) (ownChildren (contract st) ++ [node]))
           (<[addr node := addr (this (contract st))]> (parents st))).

(** [get documentation()] *)
Definition documentation (c : ContractDefinition) : value :=
  match docString c with
  | VUndefined =>
      match find isStructuredDocumentation (ownChildren c) with
      | Some r => VNode r
      | None => VUndefined
      end
  | s => s
  end.

(** [value instanceof StructuredDocumentation] *)
Definition asStructuredDocumentation (v : value) : option NodeRef :=
  match v with
  | VNode r => if isStructuredDocumentation r then Some r else None
  | _ => None
  end.

Definition setDocString (v : value) : method unit := λ st,
  (Returns (), mkState (withDocString (contract st) v) (parents st)).

Definition setScope (s : Z) : method unit := λ st,
  (Returns (), mkState (withScope (contract st) s) (parents st)).

(** [set documentation(value)] *)
Definition set_documentation (value : AST.value) : method unit :=
  step old <- reading (λ c, Returns (documentation c));
  match asStructuredDocumentation value with
  | Some v =>
      step _ <- setDocString VUndefined;
      match asStructuredDocumentation old with
      | Some o =>
          if negb (sameNode v o) then step _ <- replaceChild v o; skip else skip
      | None => step _ <- insertAtBeginning v; skip
      end
  | None =>
      step _ <- (match asStructuredDocumentation old with
                 | Some o => step _ <- removeChild o; skip
                 | None => skip
                 end);
      setDocString value
  end.

(** The loop of the constructor over [children]. *)
Fixpoint appendChildren (children : list NodeRef) : method unit :=
  match children with
  | [] => skip
  | node :: rest => step _ <- appendChild node; appendChildren rest
  end.

(** [new ContractDefinition(id, src, name, scope, kind, abstract,
    fullyImplemented, linearizedBaseContracts, usedErrors, documentation,
    children, nameLocation)], for the object allocated at [this] and the
    parent pointers as they are before the call. The node is not yet
    registered in a context. *)
Definition construct (this : NodeRef) (name : string) (scope : Z) (kind : ContractKind)
    (abstract fullyImplemented : bool) (linearizedBaseContracts usedErrors : list Z)
    (documentation : value) (children : list NodeRef) (nameLocation : option string)
    (parents : gmap nat nat) : result exn unit * State :=
  (step _ <- appendChildren children; set_documentation documentation)
    (mkState (mkContract this VUndefined name nameLocation scope kind abstract
                         fullyImplemented linearizedBaseContracts usedErrors [] None)
             parents).

(** Modelled from the spec: registration of the node in a context, by the
    factory or the reader that made it: the node now holds the context. *)
Definition registered (ctx : ASTContext) (st : State) : State :=
  let c := contract st in
  mkState (mkContract (this c) (docString c) (name c) (nameLocation c) (scope c) (kind c)
                      (abstract c) (fullyImplemented c) (linearizedBaseContracts c)
                      (usedErrors c) (ownChildren c) (Some ctx))
          (parents st).

(** [get vScope()] *)
Definition vScope (c : ContractDefinition) : result exn (option NodeRef) :=
  do ctx <- requiredContext c;
  Returns (locate ctx (scope c)).

(** [set vScope(value)] *)
Definition set_vScope (value : NodeRef) : method unit :=
  step ctx <- reading requiredContext;
  if negb (contains ctx value) then throw (NotInCurrentContext value)
  else setScope (id value).

(** [get vLinearizedBaseContracts()]; an id the context does not know
    yields [undefined] at its place. *)
Definition vLinearizedBaseContracts (c : ContractDefinition)
  : result exn (list (option NodeRef)) :=
  do ctx <- requiredContext c;
  Returns (locate ctx <$> linearizedBaseContracts c).

(** [get vUsedErrors()] *)
Definition vUsedErrors (c : ContractDefinition) : result exn (list (option NodeRef)) :=
  do ctx <- requiredContext c;
  Returns (locate ctx <$> usedErrors c).

(** [array.includes(other)] for an array of nodes and a node. *)
Definition includes (l : list (option NodeRef)) (other : NodeRef) : bool :=
  existsb (λ x, match x with Some r => sameNode r other | None => false end) l.

(** [isSubclassOf(other)] *)
Definition isSubclassOf (c : ContractDefinition) (other : NodeRef) : result exn bool :=
  do bases <- vLinearizedBaseContracts c;
  Returns (includes bases other).

(** [this.ownChildren.filter((node) => node instanceof T)] *)
Definition childrenOfType (t : NodeType) (c : ContractDefinition) : list NodeRef :=
  List.filter (λ node, instanceof t (type node)) (ownChildren c).

(** [get vConstructor()]; whether a function is a constructor is an
    attribute of the function object. *)
Definition vConstructor (isConstructor : NodeRef → bool) (c : ContractDefinition)
  : option NodeRef :=
  find isConstructor (childrenOfType FunctionDefinition c).

Definition ofOption (o : option NodeRef) : value :=
  match o with
  | Some r => VNode r
  | None => VUndefined
  end.

Definition nodes (l : list NodeRef) : value := VArr (VNode <$> l).

(** What the fields and accessors of the contract yield when the checker
    reads them. *)
Definition view (isConstructor : NodeRef → bool) (c : ContractDefinition)
  : result exn (list (string * value)) :=
  do scoped <- vScope c;
  do bases <- vLinearizedBaseContracts c;
  do errors <- vUsedErrors c;
  Returns
    [("name", VStr (name c));
     ("scope", VNum (scope c));
     ("vScope", ofOption scoped);
     ("linearizedBaseContracts", VArr (VNum <$> linearizedBaseContracts c));
     ("vLinearizedBaseContracts", VArr (ofOption <$> bases));
     ("usedErrors", VArr (VNum <$> usedErrors c));
     ("vUsedErrors", VArr (ofOption <$> errors));
     ("documentation", documentation c);
     ("vInheritanceSpecifiers", nodes (childrenOfType InheritanceSpecifier c));
     ("vStateVariables", nodes (childrenOfType VariableDeclaration c));
     ("vModifiers", nodes (childrenOfType ModifierDefinition c));
     ("vEvents", nodes (childrenOfType EventDefinition c));
     ("vErrors", nodes (childrenOfType ErrorDefinition c));
     ("vFunctions", nodes (childrenOfType FunctionDefinition c));
     ("vUsingForDirectives", nodes (childrenOfType UsingForDirective c));
     ("vStructs", nodes (childrenOfType StructDefinition c));
     ("vEnums", nodes (childrenOfType EnumDefinition c));
     ("vUserDefinedValueTypes", nodes (childrenOfType UserDefinedValueTypeDefinition c));
     ("vConstructor", ofOption (vConstructor isConstructor c))].

(** The contract as a node of the tree the checker walks, given the
    subtrees of its children. *)
Definition asNode (isConstructor : NodeRef → bool) (st : State) (below : list ASTNode)
  : result exn ASTNode :=
  do ps <- view isConstructor (contract st);
  Returns (mkNode (this (contract st)) (parents st !! addr (this (contract st))) ps below).

End Contract.

(** ** Copying a subtree *)

Module Factory.
Import AST.

(** Modelled from the spec: a node of a subtree as the factory copies it
    (the classes of the node catalogue are not among the sources): the
    reference of the node, its source range, its value attributes, its
    referential attributes (each an ordered list of ids, with null for an
    omitted position) and its ordered structural children. *)
Inductive tree : Type := Tree {
  node : NodeRef;
  src : string;
  attributes : list (string * string);
  references : list (string * list (option Z));
  subtrees : list tree
}.

(** Modelled from the spec: [descendants(include_self)], the pre-order
    enumeration of the subtree. *)
Fixpoint walk (t : tree) : list NodeRef :=
  node t :: flat_map walk (subtrees t).

(** Modelled from the spec: the factory, which is not among the sources,
    bound to its context; [allocated] is the number of node objects made so
    far, a new object taking the next address. *)
Record ASTNodeFactory : Type := mkFactory {
  context : ASTContext;
  allocated : nat
}.

(** Modelled from the spec: step 1 and 2 of the deep copy. The nodes of
    the subtree are taken in the order [order]; the [k]-th of them is
    recreated as a new object of the same class whose id is the next fresh
    id of the context. *)
Definition recreated (f : ASTNodeFactory) (k : nat) (old : NodeRef) : NodeRef :=
  mkRef (allocated f + k) (lastId (context f) + 1 + Z.of_nat k) (type old).

(** Modelled from the spec: the map from old id to new node that step 1
    produces. *)
Definition idMap (f : ASTNodeFactory) (order : list NodeRef) : gmap Z NodeRef :=
  list_to_map (imap (λ k old, (id old, recreated f k old)) order).

(** Modelled from the spec: the node that stands for [old] in the copy. *)
Definition newNode (m : gmap Z NodeRef) (old : NodeRef) : NodeRef :=
  default old (m !! id old).

(** Modelled from the spec: step 3, a referential attribute takes the new
    id when the referent lies in the subtree and keeps its id otherwise. *)
Definition remap (m : gmap Z NodeRef) (i : Z) : Z :=
  match m !! i with
  | Some new => id new
  | None => i
  end.

(** Modelled from the spec: steps 2 to 4, the subtree is rebuilt with the
    new nodes, the value attributes copied verbatim, the referential
    attributes remapped element-wise and the children in their order. *)
Fixpoint rebuild (m : gmap Z NodeRef) (t : tree) : tree :=
  Tree (newNode m (node t)) (src t) (attributes t)
       (List.map (λ '(name, ids), (name, List.map (option_map (remap m)) ids)) (references t))
       (List.map (rebuild m) (subtrees t)).

(** Modelled from the spec: [register(node)] for each new node, and the id
    counter moved past the ids handed out. *)
Definition registerAll (news : list NodeRef) (ctx : ASTContext) : ASTContext :=
  mkContext (ctxId ctx) (lastId ctx + Z.of_nat (length news))
            (foldr (λ new nodes, <[id new := new]> nodes) (map ctx) news).

(** Modelled from the spec: the deep copy of the subtree rooted at [r],
    for a given order in which its nodes are recreated. *)
Definition copyWith (order : tree → list NodeRef) (f : ASTNodeFactory) (r : tree)
  : tree * ASTNodeFactory :=
  let clone := rebuild (idMap f (order r)) r in
  (clone,
   mkFactory (registerAll (walk clone) (context f))
             (allocated f + length (order r))).

(** Modelled from the spec: [copy(r)]; the walk that hands out the new ids
    is in pre-order. *)
Definition copy (f : ASTNodeFactory) (r : tree) : tree * ASTNodeFactory :=
  copyWith walk f r.

(** Another order of recreation, children before their parent: the one the
    unit tests of [copy] show for a node with one child. *)
Fixpoint childrenFirst (t : tree) : list NodeRef :=
  flat_map childrenFirst (subtrees t) ++ [node t].

(** The [type] attribute of a node: the name of its class. *)
Definition typeName (t : NodeType) : string :=
  match t with
  | ArrayTypeName => "ArrayTypeName" | Assignment => "Assignment"
  | BinaryOperation => "BinaryOperation" | Block => "Block" | Break => "Break"
  | Conditional => "Conditional" | Continue => "Continue"
  | ContractDefinition => "ContractDefinition" | DoWhileStatement => "DoWhileStatement"
  | ElementaryTypeName => "ElementaryTypeName"
  | ElementaryTypeNameExpression => "ElementaryTypeNameExpression"
  | EmitStatement => "EmitStatement" | EnumDefinition => "EnumDefinition"
  | EnumValue => "EnumValue" | ErrorDefinition => "ErrorDefinition"
  | EventDefinition => "EventDefinition" | ExpressionStatement => "ExpressionStatement"
  | ForStatement => "ForStatement" | FunctionCall => "FunctionCall"
  | FunctionCallOptions => "FunctionCallOptions" | FunctionDefinition => "FunctionDefinition"
  | FunctionTypeName => "FunctionTypeName" | Identifier => "Identifier"
  | IdentifierPath => "IdentifierPath" | IfStatement => "IfStatement"
  | ImportDirective => "ImportDirective" | IndexAccess => "IndexAccess"
  | IndexRangeAccess => "IndexRangeAccess" | InheritanceSpecifier => "InheritanceSpecifier"
  | InlineAssembly => "InlineAssembly" | Literal => "Literal" | Mapping => "Mapping"
  | MemberAccess => "MemberAccess" | ModifierDefinition => "ModifierDefinition"
  | ModifierInvocation => "ModifierInvocation" | NewExpression => "NewExpression"
  | OverrideSpecifier => "OverrideSpecifier" | ParameterList => "ParameterList"
  | PlaceholderStatement => "PlaceholderStatement" | PragmaDirective => "PragmaDirective"
  | Return => "Return" | RevertStatement => "RevertStatement" | SourceUnit => "SourceUnit"
  | StructDefinition => "StructDefinition"
  | StructuredDocumentation => "StructuredDocumentation" | Throw => "Throw"
  | TryCatchClause => "TryCatchClause" | TryStatement => "TryStatement"
  | TupleExpression => "TupleExpression" | UnaryOperation => "UnaryOperation"
  | UncheckedBlock => "UncheckedBlock" | UserDefinedTypeName => "UserDefinedTypeName"
  | UserDefinedValueTypeDefinition => "UserDefinedValueTypeDefinition"
  | UsingForDirective => "UsingForDirective" | VariableDeclaration => "VariableDeclaration"
  | VariableDeclarationStatement => "VariableDeclarationStatement"
  | WhileStatement => "WhileStatement"
  | OtherNode className => className
  end.

Definition newline : string := String (Ascii.ascii_of_nat 10) EmptyString.

Definition printAttribute (indent : string) (a : string * string) : string :=
  indent +:+ "    " +:+ fst a +:+ ": " +:+ snd a +:+ newline.

(** An element of a referential attribute: an id, or null for an omitted
    position. *)
Definition printReference (o : option Z) : string :=
  match o with
  | Some i => pretty i
  | None => "null"
  end.

Definition printReferences (indent : string) (a : string * list (option Z)) : string :=
  indent +:+ "    " +:+ fst a +:+ ": ["
  +:+ String.concat ", " (List.map printReference (snd a)) +:+ "]" +:+ newline.

(** Modelled from the spec: [print(depth)], a plain textual render of the
    subtree to the given depth: for each node a line with its class and its
    id, a line for its id and one for its source range, a line for each
    value attribute and for each referential attribute, and below them the
    children, indented, while the depth lasts. *)
Fixpoint print (t : tree) (depth : nat) (indent : string) : string :=
  indent +:+ typeName (type (node t)) +:+ " #" +:+ pretty (id (node t)) +:+ newline
  +:+ indent +:+ "    id: " +:+ pretty (id (node t)) +:+ newline
  +:+ indent +:+ "    src: " +:+ src t +:+ newline
  +:+ String.concat EmptyString (List.map (printAttribute indent) (attributes t))
  +:+ String.concat EmptyString (List.map (printReferences indent) (references t))
  +:+ match depth with
      | O => EmptyString
      | S d =>
          String.concat EmptyString
            (List.map (λ child, print child d (indent +:+ "    ")) (subtrees t))
      end.

End Factory.

(** ** Type nodes: [src/types/utils.ts] *)

Module Types.
Import AST.

Inductive DataLocation : Type := Storage | Memory | CallData | Default.

(** The type nodes, as the functions of [types/utils.ts] build them and
    take them apart (their classes are declared in another file). [BytesType]
    and [StringType] are the two instances of [PackedArrayType]; the
    definition of a user-defined type is a declaration node or undefined;
    [OtherType] stands for the classes these functions never look into. *)
Inductive TypeNode : Type :=
| AddressType (payable : bool)
| ArrayType (elementT : TypeNode) (size : option N)
| BoolType
| BytesType
| FixedBytesType (size : N)
| FunctionType (name : option string) (args rets : list TypeNode)
               (visibility mutability : string)
| IntType (nBits : N) (signed : bool)
| MappingType (keyType valueType : TypeNode)
| PointerType (to : TypeNode) (location : DataLocation)
| StringType
| TupleType (elements : list TypeNode)
| UserDefinedType (name : string) (definition : option NodeRef)
| OtherType (className : string).

(** What [assert] throws in these functions: an [Error] whose message tells
    the condition that failed, with the node or type it is about. *)
Inductive exn : Type :=
| UnexpectedPointer (type : TypeNode)
| UnexpectedTuple (type : TypeNode)
| NoDefinition (type : TypeNode)
| MemberCountExceeds (members : nat).

(** [specializeType(type, loc)] *)
Fixpoint specializeType (type : TypeNode) (loc : DataLocation) : result exn TypeNode :=
  match type with
  | PointerType _ _ => Throws (UnexpectedPointer type)
  | TupleType _ => Throws (UnexpectedTuple type)
  | BytesType | StringType => Returns (PointerType type loc)
  | ArrayType elementT size =>
      do concreteElT <- specializeType elementT loc;
      Returns (PointerType (ArrayType concreteElT size) loc)
  | UserDefinedType _ def =>
      match def with
      | None => Throws (NoDefinition type)
      | Some d =>
          if instanceof StructDefinition (AST.type d) then Returns (PointerType type loc)
          else Returns type
      end
  | MappingType keyType valueType =>
      do concreteKeyT <- specializeType keyType Memory;
      do concreteValueT <- specializeType valueType Storage;
      Returns (PointerType (MappingType concreteKeyT concreteValueT) Storage)
  | _ => Returns type
  end.

(** [generalizeType(type)] *)
Fixpoint generalizeType (type : TypeNode) : TypeNode * option DataLocation :=
  match type with
  | PointerType to location => (fst (generalizeType to), Some location)
  | ArrayType elementT size => (ArrayType (fst (generalizeType elementT)) size, None)
  | MappingType keyType valueType =>
      (MappingType (fst (generalizeType keyType)) (fst (generalizeType valueType)),
       Some Storage)
  | _ => (type, None)
  end.

(** The sizes the loop of [enumToIntType] tries, in its order. *)
Definition enumSizes : list N := [8; 16; 24; 32]%N.

(** [enumToIntType(decl)] *)
Definition enumToIntType (decl : ASTNode) : result exn TypeNode :=
  let length := List.length (children decl) in
  match find (λ n, N.of_nat length <=? 2 ^ n)%N enumSizes with
  | Some size => Returns (IntType size false)
  | None => Throws (MemberCountExceeds length)
  end.

End Types.

(** ** Path remappings: [parsePathRemapping] of [src/compile/utils.ts] *)

Module Remapping.

(** A JavaScript string as the regular expression sees it: its UTF-16 code
    units. *)
Definition codeUnit : Type := N.

Definition colon : codeUnit := 58%N.
Definition equals : codeUnit := 61%N.

(** The code units of a string of one-byte characters. *)
Fixpoint codes (s : string) : list codeUnit :=
  match s with
  | EmptyString => []
  | String c s' => Ascii.N_of_ascii c :: codes s'
  end.

(** What [.] does not match: the line terminators. *)
Definition isLineTerminator (c : codeUnit) : bool :=
  ((c =? 10) || (c =? 13) || (c =? 8232) || (c =? 8233))%N.

(** A greedy run of units other than [c], followed by [c], from the start
    of [s]: the run ends at the first [c], and no shorter run is followed
    by [c]; the result is the run and what follows the [c]. *)
Fixpoint upTo (c : codeUnit) (s : list codeUnit) : option (list codeUnit * list codeUnit) :=
  match s with
  | [] => None
  | x :: s' =>
      if (x =? c)%N then Some ([], s')
      else match upTo c s' with
           | Some (run, rest) => Some (x :: run, rest)
           | None => None
           end
  end.

(** One or more of [.] up to the end: all that is left, if it is not empty
    and holds no line terminator. *)
Definition toEnd (s : list codeUnit) : bool :=
  match s with
  | [] => false
  | _ => forallb (λ c, negb (isLineTerminator c)) s
  end.

(** The second half of the expression, from the start of [s]: a run of units
    other than [=] (group 3), the [=], and all the rest (group 4). *)
Definition prefixAndTarget (s : list codeUnit) : option (list codeUnit * list codeUnit) :=
  match upTo equals s with
  | Some (prefix, target) => if toEnd target then Some (prefix, target) else None
  | None => None
  end.

(** [entry.match(rx)] for the expression of [parsePathRemapping], an
    optional group (a run of units other than [:], group 2, and the [:])
    followed by the second half: the groups 2, 3 and 4 of the match, group 2
    being undefined when the optional group took no part.  The optional
    group is tried first; when the rest of the expression fails after it,
    the match is tried again without it. *)
Definition rxRemapping (entry : list codeUnit)
  : option (option (list codeUnit) * list codeUnit * list codeUnit) :=
  let without :=
    match prefixAndTarget entry with
    | Some (prefix, target) => Some (None, prefix, target)
    | None => None
    end in
  match upTo colon entry with
  | Some (context, rest) =>
      match prefixAndTarget rest with
      | Some (prefix, target) => Some (Some context, prefix, target)
      | None => without
      end
  | None => without
  end.

Inductive exn : Type :=
| InvalidRemappingEntry (entry : list codeUnit).

(** A parsed remapping: context, prefix and target. *)
Definition remapping : Type := list codeUnit * list codeUnit * list codeUnit.

(** The function given to [remapping.map] in [parsePathRemapping]. *)
Definition parseEntry (entry : list codeUnit) : result exn remapping :=
  match rxRemapping entry with
  | None => Throws (InvalidRemappingEntry entry)
  | Some (context, prefix, target) => Returns (default [] context, prefix, target)
  end.

(** [parsePathRemapping(remapping)] *)
Fixpoint parsePathRemapping (entries : list (list codeUnit)) : result exn (list remapping) :=
  match entries with
  | [] => Returns []
  | entry :: rest =>
      do parsed <- parseEntry entry;
      do others <- parsePathRemapping rest;
      Returns (parsed :: others)
  end.

End Remapping.

(** ** The entry point of the reader *)

Module Reader.
Import Json.

(** Modelled from the spec: the two schemas in which a typed AST comes;
    the readers, one per schema, are not among the sources. *)
Inductive schema : Type := Modern | Legacy.

(** Modelled from the spec: the schema selection rule, made for each
    section: the modern schema when the root object of the typed AST of the
    section has a [nodeType] key, the legacy schema otherwise. *)
Definition schemaOf (root : json) : schema :=
  match root with
  | JObj fs => if bool_decide (is_Some (assoc "nodeType" fs)) then Modern else Legacy
  | _ => Legacy
  end.

(** Modelled from the spec: the typed-AST fields that a section records
    among [ast], [legacyAST] and [AST], each with the root it holds. *)
Definition typedAsts (section : json) : list (string * json) :=
  match section with
  | JObj fs => omap (λ p, (λ root, (p, root)) <$> assoc p fs) astProps
  | _ => []
  end.

(** Modelled from the spec: what the entry point raises: a schema mismatch
    for input that lacks a required field (the [sources] map, or the one
    typed AST a section must record), and whatever the reader of the schema
    raises on the typed AST of a section; either aborts the entire read. *)
Inductive exn (E : Type) : Type :=
| SchemaMismatch (path : string)
| ReaderError (path : string) (e : E).
Arguments SchemaMismatch {E} path.
Arguments ReaderError {E} path e.

Section Read.

Context {SourceUnit E : Type}.

(** The readers of the two schemas, which are not among the sources: the
    translation of the root of a typed AST into a source unit, or the error
    it fails with. *)
Variable translate : schema → json → result E SourceUnit.

(** Modelled from the spec: the reading of one section: the section must
    record a typed AST; the schema is selected from the root of that AST,
    and the reader of the schema translates it. The specification has a
    section record exactly one typed AST; of several, the first in the order
    [ast], [legacyAST], [AST] is read here. *)
Definition readSection (entry : string * json) : result (exn E) SourceUnit :=
  match typedAsts (snd entry) with
  | (_, root) :: _ =>
      match translate (schemaOf root) root with
      | Returns unit => Returns unit
      | Throws e => Throws (ReaderError (fst entry) e)
      end
  | [] => Throws (SchemaMismatch (fst entry))
  end.

(** Modelled from the spec: the sections are read one after the other, in
    their order; an error aborts the read. *)
Fixpoint readSections (sections : list (string * json))
  : result (exn E) (list SourceUnit) :=
  match sections with
  | [] => Returns []
  | entry :: rest =>
      do unit <- readSection entry;
      do units <- readSections rest;
      Returns (unit :: units)
  end.

(** Modelled from the spec: [read(json)], which is not among the sources
    (only calls of it are): the list of the source units of the sections of
    the [sources] map of the compiler output. *)
Definition read (data : json) : result (exn E) (list SourceUnit) :=
  match data with
  | JObj fs =>
      match assoc "sources" fs with
      | Some (JObj sections) => readSections sections
      | _ => Throws (SchemaMismatch "sources")
      end
  | _ => Throws (SchemaMismatch "sources")
  end.

End Read.

End Reader.

(** ** Notions the specification uses for the checker, and sample trees *)

Module CheckerProps.
Import AST.

(** *** Sample trees *)

Definition unitRef : NodeRef := mkRef 0 2 SourceUnit.
Definition contractRef : NodeRef := mkRef 1 1 ContractDefinition.

(** The context after reading one source unit [#2] with one contract [#1]. *)
Definition sampleCtx : ASTContext :=
  mkContext 1 2 (<[1 := contractRef]> (<[2 := unitRef]> ∅)).

(** A source unit object whose only child is a contract named C. *)
Definition unitOf (contract : ASTNode) : ASTNode :=
  mkNode unitRef None
    [("exportedSymbols", VMap [("C", VNum 1)]);
     ("vExportedSymbols", VMap [("C", VNode contractRef)]);
     ("vPragmaDirectives", VArr []); ("vImportDirectives", VArr []);
     ("vContracts", VArr [VNode contractRef]); ("vEnums", VArr []); ("vStructs", VArr []);
     ("vFunctions", VArr []); ("vVariables", VArr []); ("vErrors", VArr []);
     ("vUserDefinedValueTypes", VArr [])]
    [contract].

(** The contract object a reader constructs for [contract C { ... }] with
    the given reference, scope, linearization, documentation and children,
    registers in [ctx] and appends to the node at address [owner] (when
    there is one). *)
Definition readContract (ctx : ASTContext) (this : NodeRef) (scope : Z)
    (linearizedBaseContracts : list Z) (documentation : value)
    (children : list NodeRef) (owner : option nat) : Contract.State :=
  let built :=
    snd (Contract.construct this "C" scope Contract.KContract false true
                            linearizedBaseContracts [] documentation children None ∅) in
  Contract.registered ctx
    (Contract.mkState (Contract.contract built)
                      (match owner with
                       | Some p => <[addr this := p]> (Contract.parents built)
                       | None => Contract.parents built
                       end)).

Definition contractWith (documentation : value) (children : list NodeRef)
    (owner : option nat) : Contract.State :=
  readContract sampleCtx contractRef 2 [1] documentation children owner.

(** The contract as the checker reads it, with the subtrees of its children. *)
Definition contractNode (st : Contract.State) (below : list ASTNode) : ASTNode :=
  match Contract.asNode (λ _, false) st below with
  | Returns c => c
  | Throws _ => mkNode (Contract.this (Contract.contract st)) None [] []
  end.

Definition treeOf (st : Contract.State) (below : list ASTNode) : ASTNode :=
  unitOf (contractNode st below).

(** Output of a compiler older than 0.6.3: the documentation is text. *)
Definition legacyUnit : ASTNode :=
  treeOf (contractWith (VStr "Doc for C") [] (Some 0%nat)) [].

(** The same contract without documentation. *)
Definition plainUnit : ASTNode :=
  treeOf (contractWith VUndefined [] (Some 0%nat)) [].

(** Output of a compiler from 0.6.3 on: the documentation is a node [#3],
    which the setter makes the first child of the contract. *)
Definition docRef : NodeRef := mkRef 2 3 StructuredDocumentation.

Definition structuredCtx : ASTContext :=
  mkContext 1 3 (<[3 := docRef]> (map sampleCtx)).

Definition structuredUnit : ASTNode :=
  unitOf (contractNode
            (readContract structuredCtx contractRef 2 [1] (VNode docRef) [] (Some 0%nat))
            [mkNode docRef (Some 1%nat) [("text", VStr "Doc for C")] []]).

(** The same contract, never appended to the unit: its parent is unset. *)
Definition detachedUnit : ASTNode :=
  treeOf (contractWith VUndefined [] None) [].

(** [contract C { uint x = now; }]: the compiler gives the built-in [now]
    the declaration id -17, which no node of the tree carries, so the view
    of the reference is undefined. *)
Definition uintRef : NodeRef := mkRef 2 1 ElementaryTypeName.
Definition nowRef : NodeRef := mkRef 3 2 Identifier.
Definition xRef : NodeRef := mkRef 4 3 VariableDeclaration.
Definition clockRef : NodeRef := mkRef 1 4 ContractDefinition.
Definition fileRef : NodeRef := mkRef 0 5 SourceUnit.

Definition builtinCtx : ASTContext :=
  mkContext 1 5
    (<[1 := uintRef]> (<[2 := nowRef]> (<[3 := xRef]> (<[4 := clockRef]>
       (<[5 := fileRef]> ∅))))).

Definition nowNode : ASTNode :=
  mkNode nowRef (Some 4%nat)
    [("name", VStr "now"); ("referencedDeclaration", VNum (-17));
     ("vReferencedDeclaration", VUndefined)] [].

Definition xNode : ASTNode :=
  mkNode xRef (Some 1%nat)
    [("name", VStr "x"); ("scope", VNum 4); ("vScope", VNode clockRef);
     ("vType", VNode uintRef); ("vValue", VNode nowRef)]
    [mkNode uintRef (Some 4%nat) [("name", VStr "uint")] []; nowNode].

Definition builtinUnit : ASTNode :=
  mkNode fileRef None
    [("exportedSymbols", VMap [("C", VNum 4)]);
     ("vExportedSymbols", VMap [("C", VNode clockRef)]);
     ("vPragmaDirectives", VArr []); ("vImportDirectives", VArr []);
     ("vContracts", VArr [VNode clockRef]); ("vEnums", VArr []); ("vStructs", VArr []);
     ("vFunctions", VArr []); ("vVariables", VArr []); ("vErrors", VArr []);
     ("vUserDefinedValueTypes", VArr [])]
    [contractNode (readContract builtinCtx clockRef 5 [4] VUndefined [xRef] (Some 0%nat))
                  [xNode]].

(** *** What the specification calls reference/view agreement *)

(** The reference attributes that have a dereferenced view. *)
Definition referencePairs : list (string * string) :=
  [("scope", "vScope"); ("sourceUnit", "vSourceUnit");
   ("referencedDeclaration", "vReferencedDeclaration");
   ("linearizedBaseContracts", "vLinearizedBaseContracts");
   ("usedErrors", "vUsedErrors");
   ("functionReturnParameters", "vFunctionReturnParameters")].

(** An id and the node at the same position of the view. *)
Definition matches (f vf : value) : Prop :=
  ∃ i r, f = VNum i ∧ vf = VNode r ∧ id r = i.

(** The field [f] and its view [vf] agree on [node]. *)
Definition agrees (node : ASTNode) (f vf : string) : Prop :=
  match get node f with
  | VNum i => ∃ r, get node vf = VNode r ∧ id r = i
  | VArr ids => ∃ views, get node vf = VArr views ∧ Forall2 matches ids views
  | _ => True
  end.

(** The pairs [checkSane] compares on a node: fixed by the class, and for
    identifiers, identifier paths and member accesses only when the
    reference is not null and its view is defined. *)
Definition checkedPairs (node : ASTNode) : list (string * string) :=
  match type (self node) with
  | ImportDirective => [("scope", "vScope"); ("sourceUnit", "vSourceUnit")]
  | ContractDefinition =>
      [("scope", "vScope"); ("linearizedBaseContracts", "vLinearizedBaseContracts");
       ("usedErrors", "vUsedErrors")]
  | FunctionDefinition | StructDefinition | VariableDeclaration => [("scope", "vScope")]
  | Return => [("functionReturnParameters", "vFunctionReturnParameters")]
  | UserDefinedTypeName => [("referencedDeclaration", "vReferencedDeclaration")]
  | Identifier | IdentifierPath | MemberAccess =>
      if referenceResolved node
      then [("referencedDeclaration", "vReferencedDeclaration")] else []
  | _ => []
  end.

(** Every direct child points back at its owner. *)
Definition parentsConsistent (unit : ASTNode) : Prop :=
  ∀ node child, node ∈ getChildren unit → child ∈ children node →
                parent child = Some (addr (self node)).

(** The error of the parent check. *)
Definition wrongParent (e : exn) : bool :=
  match e with
  | InsaneASTError (WrongParent _ _ _) => true
  | _ => false
  end.

End CheckerProps.

(** ** Notions the specification uses for contracts, and sample contracts *)

Module ContractProps.
Import AST Contract.

(** An address denotes one object: two references of the list that have
    the address in common are the same reference. *)
Definition coherent (l : list NodeRef) : Prop :=
  ∀ a b, a ∈ l → b ∈ l → addr a = addr b → a = b.

(** What the type of the [documentation] property admits: a string, a
    [StructuredDocumentation] node, or undefined. *)
Definition isDocumentation (v : value) : Prop :=
  v = VUndefined ∨ (∃ s, v = VStr s) ∨ (∃ r, v = VNode r ∧ isStructuredDocumentation r = true).

(** The [StructuredDocumentation] nodes among the children. *)
Definition docChildren (c : ContractDefinition) : list NodeRef :=
  List.filter isStructuredDocumentation (ownChildren c).

(** The representation the [documentation] accessors keep: the private
    string is a string or undefined, at most one child is a
    [StructuredDocumentation], and none is while the string is set. *)
Definition documented (c : ContractDefinition) : Prop :=
  (docString c = VUndefined ∧ (length (docChildren c) ≤ 1)%nat)
  ∨ ((∃ s, docString c = VStr s) ∧ docChildren c = []).

(** Every child points back at the contract. *)
Definition parented (st : State) : Prop :=
  ∀ x, x ∈ ownChildren (contract st) →
       parents st !! addr x = Some (addr (this (contract st))).

(** The node a value refers to, if it is one. *)
Definition refsOf (v : value) : list NodeRef :=
  match v with
  | VNode r => [r]
  | _ => []
  end.

(** [node] is a direct child of the contract: it is in the child list and
    its parent is the contract. *)
Definition directChild (st : State) (node : NodeRef) : Prop :=
  node ∈ ownChildren (contract st)
  ∧ parents st !! addr node = Some (addr (this (contract st))).

(** How the child list changes when the documentation becomes the node [r]. *)
Definition placed (r : NodeRef) (old : value) (before after : list NodeRef) : Prop :=
  match asStructuredDocumentation old with
  | Some o =>
      if sameNode r o then after = before
      else ∃ pre post, before = pre ++ o :: post ∧ after = pre ++ r :: post
                       ∧ Forall (λ x, isStructuredDocumentation x = false) pre
  | None => after = r :: before
  end.

(** Sample objects: a contract [#1] registered with its source unit [#2],
    two documentation nodes and a node of another context that reuses the
    id of the unit. *)
Definition firstDoc : NodeRef := mkRef 7 7 StructuredDocumentation.
Definition secondDoc : NodeRef := mkRef 8 8 StructuredDocumentation.
Definition stranger : NodeRef := mkRef 9 2 SourceUnit.

Definition documentedContract : State :=
  CheckerProps.contractWith (VStr "Doc for C") [] (Some 0%nat).

(** The contract after [appendChild(firstDoc)] and [appendChild(secondDoc)]
    on a contract constructed without documentation. *)
Definition twiceDocumented : State :=
  exec (step _ <- appendChild firstDoc; appendChild secondDoc)
       (CheckerProps.contractWith VUndefined [] (Some 0%nat)).

End ContractProps.

(** ** Notions the specification uses for copies, and sample subtrees *)

Module FactoryProps.
Import AST Factory.

(** The subtree is owned by the context of the factory: its nodes are
    registered there, carry pairwise distinct ids, were made before (their
    addresses are allocated), and no id registered in the context is beyond
    the id counter. *)
Record owned (f : ASTNodeFactory) (r : tree) : Prop := mkOwned {
  owned_registered : Forall (λ n, contains (context f) n = true) (walk r);
  owned_distinct : NoDup (id <$> walk r);
  owned_allocated : Forall (λ n, (addr n < allocated f)%nat) (walk r);
  owned_counted : ∀ i, is_Some (locate (context f) i) → i ≤ lastId (context f)
}.

(** Two trees of the same shape whose nodes at the same place are related
    by [P]. *)
Inductive corresponds (P : NodeRef → NodeRef → Prop) : tree → tree → Prop :=
| corresponds_at (o c : tree) :
    P (node o) (node c) →
    Forall2 (corresponds P) (subtrees o) (subtrees c) →
    corresponds P o c.

(** A node of the copy beside its original: the same class; an id that is
    strictly greater than that of the original and than every id the
    context had handed out, and that the context did not know; and an
    object that did not exist before. *)
Definition renewed (f : ASTNodeFactory) (o c : NodeRef) : Prop :=
  type c = type o
  ∧ id o < id c
  ∧ lastId (context f) < id c
  ∧ locate (context f) (id c) = None
  ∧ (allocated f ≤ addr c)%nat.

(** The tree [t] with every id renamed by [rename]: the ids of its nodes
    and the ids its referential attributes hold. *)
Fixpoint renumbered (rename : Z → Z) (t : tree) : tree :=
  Tree (mkRef (addr (node t)) (rename (id (node t))) (type (node t)))
       (src t) (attributes t)
       (List.map (λ '(name, ids), (name, List.map (option_map rename) ids)) (references t))
       (List.map (renumbered rename) (subtrees t)).

(** The enum of the unit test: [makeEnumValue("MyValue")] then
    [makeEnumDefinition("MyEnum", [value])] by a new factory. *)
Definition myValue : NodeRef := mkRef 0 1 EnumValue.
Definition myEnum : NodeRef := mkRef 1 2 EnumDefinition.

Definition enumTree : tree :=
  Tree myEnum "0:0:0" [("name", "MyEnum")] []
       [Tree myValue "0:0:0" [("name", "MyValue")] [] []].

Definition enumFactory : ASTNodeFactory :=
  mkFactory (mkContext 1 2 (<[1 := myValue]> (<[2 := myEnum]> ∅))) 2.

(** [contract C { uint x; }] in a source unit [#3]: the contract names
    itself in its linearization and the unit as its scope, its variable
    names the contract as its scope; so the subtree of the contract holds
    references into itself and one out of it. *)
Definition xVariable : NodeRef := mkRef 0 1 VariableDeclaration.
Definition cContract : NodeRef := mkRef 1 2 ContractDefinition.
Definition cUnit : NodeRef := mkRef 2 3 SourceUnit.

Definition contractTree : tree :=
  Tree cContract "0:22:0" [("name", "C")]
       [("scope", [Some 3]); ("linearizedBaseContracts", [Some 2])]
       [Tree xVariable "13:6:0" [("name", "x")] [("scope", [Some 2])] []].

Definition contractFactory : ASTNodeFactory :=
  mkFactory (mkContext 1 3 (<[1 := xVariable]> (<[2 := cContract]> (<[3 := cUnit]> ∅)))) 3.

End FactoryProps.

(** ** Notions for the type nodes *)

Module TypesProps.
Import AST Types.

(** A general type pattern: along array elements and mapping keys and
    values there is no pointer, no tuple and no user-defined type without
    its definition. *)
Fixpoint general (type : TypeNode) : bool :=
  match type with
  | PointerType _ _ | TupleType _ => false
  | ArrayType elementT _ => general elementT
  | MappingType keyType valueType => general keyType && general valueType
  | UserDefinedType _ None => false
  | _ => true
  end.

(** No pointer is left where [specializeType] puts one: the type is no
    pointer, and neither is, in turn, the element type of an array or the
    key or value type of a mapping. *)
Fixpoint pointerFree (type : TypeNode) : bool :=
  match type with
  | PointerType _ _ => false
  | ArrayType elementT _ => pointerFree elementT
  | MappingType keyType valueType => pointerFree keyType && pointerFree valueType
  | _ => true
  end.

(** The location [generalizeType] finds on the specialization of a general
    type to [loc]. *)
Definition locationOf (type : TypeNode) (loc : DataLocation) : option DataLocation :=
  match type with
  | BytesType | StringType | ArrayType _ _ => Some loc
  | UserDefinedType _ (Some d) =>
      if instanceof StructDefinition (AST.type d) then Some loc else None
  | MappingType _ _ => Some Storage
  | _ => None
  end.

(** [mapping(address => uint[]) ] with a struct beside it. *)
Definition pointStruct : NodeRef := mkRef 11 11 StructDefinition.

Definition balances : TypeNode :=
  MappingType (AddressType false) (ArrayType (UserDefinedType "Point" (Some pointStruct)) None).

End TypesProps.

(** ** More notions for the intake *)

Module JsonMore.
Import Json JsonProps.

(** The text [fillFilesFromSources] takes from a section: the [source] of
    a truthy section when it is a string. *)
Definition sourceText (section : json) : option string :=
  if truthy section then
    match getProp section "source" with
    | Returns (JStr src) => Some src
    | _ => None
    end
  else None.

(** The [source] property of a section that is an object. *)
Definition sourceOf (section : json) : json :=
  match section with
  | JObj fs => default JUndefined (assoc "source" fs)
  | _ => JUndefined
  end.

(** Neither an object nor an array: null, undefined or a primitive. *)
Definition isPrimitive (j : json) : bool :=
  match j with
  | JObj _ | JArr _ => false
  | _ => true
  end.

(** A compiler output of two files, one of which kept its text. *)
Definition twoFiles : json :=
  JObj [("a.sol", JObj [("ast", JObj []); ("source", JStr "contract A {}")]);
        ("b.sol", JObj [("ast", JObj [])])].

(** Two texts sent for compilation. *)
Definition twoTexts : json :=
  JObj [("sources",
         JObj [("a.sol", JObj [("source", JStr "contract A {}")]);
               ("b.sol", JObj [("source", JStr "contract B {}")])])].

End JsonMore.

(** ** Notions for the helpers of the checker, and a tree with a node of a
       class the checker does not know *)

Module CheckerMore.
Import AST CheckerProps.

(** The node an element of an array or of a map holds, if it holds one. *)
Definition elementNodes (el : value) : list NodeRef :=
  match el with
  | VNode r => [r]
  | _ => []
  end.

(** The nodes a field names: the node it holds, or those its array or its
    map holds. *)
Definition nodesOf (v : value) : list NodeRef :=
  match v with
  | VNode r => [r]
  | VArr items => flat_map elementNodes items
  | VMap entries => flat_map (λ entry, elementNodes (snd entry)) entries
  | _ => []
  end.

(** The nodes the fields [fields] of [node] name. *)
Definition named (node : ASTNode) (fields : list string) : list NodeRef :=
  flat_map (λ field, nodesOf (get node field)) fields.

(** The objects of a list of references. *)
Definition addresses (l : list NodeRef) : gset nat := list_to_set (addr <$> l).

(** An element [checkDirectChildren] admits in an array or a map. *)
Definition nodeOrNull (el : value) : bool :=
  match el with
  | VNull | VNode _ => true
  | _ => false
  end.

(** A field value [checkDirectChildren] admits. *)
Definition shaped (v : value) : bool :=
  match v with
  | VUndefined | VNode _ => true
  | VArr items => forallb nodeOrNull items
  | VMap entries => forallb (λ entry, nodeOrNull (snd entry)) entries
  | _ => false
  end.

(** The values [checkFieldAndVFieldMatch] admits in a reference field. *)
Definition numberOrArray (v : value) : bool :=
  match v with
  | VNum _ | VArr _ => true
  | _ => false
  end.

(** A source unit whose only child is a node of a class registered by a
    user of the reader, and the context that holds the two. *)
Definition customRef : NodeRef := mkRef 1 1 (OtherNode "YulBlock").

Definition customCtx : ASTContext :=
  mkContext 1 2 (<[1 := customRef]> (<[2 := unitRef]> ∅)).

Definition customUnit : ASTNode :=
  mkNode unitRef None
    [("exportedSymbols", VMap []); ("vExportedSymbols", VMap []);
     ("vPragmaDirectives", VArr []); ("vImportDirectives", VArr []);
     ("vContracts", VArr []); ("vEnums", VArr []); ("vStructs", VArr []);
     ("vFunctions", VArr [VNode customRef]); ("vVariables", VArr []); ("vErrors", VArr []);
     ("vUserDefinedValueTypes", VArr [])]
    [mkNode customRef (Some 0%nat) [] []].

(** The context before anything is registered. *)
Definition emptyCtx : ASTContext := mkContext 1 0 ∅.

End CheckerMore.

(** ** Notions for the constructor of a contract *)

Module ContractMore.
Import AST Contract ContractProps.

(** The parent pointers after the nodes of [l] were appended, one after
    the other, to the node at [owner]. *)
Definition adopted (owner : nat) (l : list NodeRef) (parents : gmap nat nat) : gmap nat nat :=
  foldl (λ m x, <[addr x := owner]> m) parents l.

(** The state in which the constructor leaves the new object. *)
Definition built (this : NodeRef) (documentation : value) (children : list NodeRef)
    (parents : gmap nat nat) : result exn unit * State :=
  construct this "C" 2 KContract false true [1] [] documentation children None parents.

End ContractMore.

(** ** Notions the specification uses for the reader *)

Module ReaderProps.
Import Json JsonProps Reader.

(** The section records the typed-AST field [p], holding [root]. *)
Definition records (p : string) (root : json) (section : json) : Prop :=
  p ∈ astProps ∧ ∃ fs, section = JObj fs ∧ assoc p fs = Some root.

(** The section records the typed-AST field [p] and no other of them. *)
Definition recordsOnly (p : string) (root : json) (section : json) : Prop :=
  records p root section
  ∧ ∀ q other, records q other section → q = p.

(** The source unit that a section yields on its own: the translation, in
    the schema of its root, of the one typed AST it records. *)
Definition yields {SourceUnit E : Type} (translate : schema → json → result E SourceUnit)
    (entry : string * json) (unit : SourceUnit) : Prop :=
  ∃ p root, recordsOnly p root (snd entry)
            ∧ translate (schemaOf root) root = Returns unit.

(** The source unit stems from the section: it is the translation, in the
    schema of its root, of a typed AST that the section records. *)
Definition stemsFrom {SourceUnit E : Type} (translate : schema → json → result E SourceUnit)
    (entry : string * json) (unit : SourceUnit) : Prop :=
  ∃ p root, records p root (snd entry)
            ∧ translate (schemaOf root) root = Returns unit.

(** A translation that tells the schema it was asked for and the node kind
    it finds at the root: under [nodeType] in the modern schema, under
    [name] in the legacy one. *)
Definition rootKind (s : schema) (root : json) : result string (schema * string) :=
  match s, root with
  | Modern, JObj fs =>
      match assoc "nodeType" fs with
      | Some (JStr kind) => Returns (Modern, kind)
      | _ => Throws "nodeType"
      end
  | Legacy, JObj fs =>
      match assoc "name" fs with
      | Some (JStr kind) => Returns (Legacy, kind)
      | _ => Throws "name"
      end
  | _, _ => Throws "root"
  end.

End ReaderProps.
(** * Properties

    ** Loops that may throw *)

Lemma forEach_Returns {E A} (body : A → result E unit) xs :
  forEach body xs = Returns () ↔ Forall (λ x, body x = Returns ()) xs.
Proof.
  induction xs as [|x xs IH]; simpl.
  - split; [constructor | reflexivity].
  - unfold bind. destruct (body x) as [[]|e] eqn:Hx.
    + rewrite IH. split.
      * intros H. constructor; [exact Hx | exact H].
      * intros H. inversion H; subst. assumption.
    + split; [discriminate | intros H; inversion H; congruence].
Qed.

Lemma forEach_Throws {E A} (body : A → result E unit) xs e :
  forEach body xs = Throws e →
  ∃ pre x post, xs = pre ++ x :: post
                ∧ Forall (λ y, body y = Returns ()) pre ∧ body x = Throws e.
Proof.
  induction xs as [|x xs IH]; simpl; [discriminate|].
  unfold bind. destruct (body x) as [[]|e'] eqn:Hx.
  - intros H. destruct (IH H) as (pre & y & post & -> & Hpre & Hy).
    exists (x :: pre), y, post. split; [reflexivity|]. split; [|exact Hy].
    constructor; assumption.
  - intros [= ->]. exists [], x, xs. split; [reflexivity|]. split; [constructor | exact Hx].
Qed.

Lemma forEach_app_Throws {E A} (body : A → result E unit) pre x post e :
  Forall (λ y, body y = Returns ()) pre → body x = Throws e →
  forEach body (pre ++ x :: post) = Throws e.
Proof.
  intros Hpre Hx. induction Hpre as [|y pre Hy _ IH]; simpl.
  - unfold bind. rewrite Hx. reflexivity.
  - unfold bind. rewrite Hy. exact IH.
Qed.


(** ** The compiler-output intake *)

Module JsonFacts.
Import Json JsonProps.

Lemma every_objects p sections :
  forallb isObjectLiteral sections = true →
  every p sections = Returns (forallb (ownsProp p) sections).
Proof.
  induction sections as [|s rest IH]; simpl; [reflexivity|].
  intros [Hs Hrest]%andb_prop.
  destruct s; try discriminate. simpl.
  destruct (bool_decide _); simpl; [apply IH, Hrest | reflexivity].
Qed.

Lemma containsLoop_objects ps sections :
  forallb isObjectLiteral sections = true →
  containsLoop sections ps
  = Returns (existsb (λ p, forallb (ownsProp p) sections) ps).
Proof.
  intros Hobj. induction ps as [|p ps IH]; simpl; [reflexivity|].
  rewrite every_objects by exact Hobj. simpl.
  destruct (forallb (ownsProp p) sections); simpl; [reflexivity | exact IH].
Qed.

Lemma detectOne_reported e :
  e ≠ JNull →
  detectOne e = Returns (if isErrorEntry e then [reported e] else []).
Proof.
  intros Hnull. destruct e as [| |b|n|s|items|fs]; simpl; try reflexivity.
  - congruence.
  - destruct (occursIn "Warning" s); reflexivity.
  - destruct (assoc "severity" fs) as [sev|]; simpl; [|reflexivity].
    destruct sev as [| |b|n|s|items|fs']; try reflexivity.
    destruct (String.eqb s "error") eqn:Hs.
    + apply String.eqb_eq in Hs. subst s. reflexivity.
    + assert (Hne : s ≠ "error") by (intros ->; rewrite String.eqb_refl in Hs; discriminate).
      clear Hs.
      do 6 (destruct s as [|[[] [] [] [] [] [] [] []] s]; try reflexivity); congruence.
Qed.

Lemma detectLoop_reported es :
  JNull ∉ es →
  detectLoop es = Returns (reported <$> List.filter isErrorEntry es).
Proof.
  induction es as [|e es IH]; simpl; [reflexivity|].
  intros Hnull. rewrite not_elem_of_cons in Hnull. destruct Hnull as [Hne Hrest].
  rewrite detectOne_reported by congruence. simpl. rewrite (IH Hrest). simpl.
  destruct (isErrorEntry e); reflexivity.
Qed.


(** The intake is stricter than the reader: every section of [mixedData]
    carries a typed-AST field, yet [compileJsonData] raises an error
    instead of resolving. *)
Lemma compileJsonData_mixed_rejected :
  Forall (λ s, carriesAst s = true) (values mixedSources)
  ∧ compileJsonData "mixed.json" mixedData
    = Raised (Error "Unable to process data structure: neither consistent AST or code values are present").
Proof. split; [repeat constructor | reflexivity]. Qed.



(** C6, as the specification words it, fails: for a modern entry it is the
    entry's [formattedMessage] that is returned, not the entry. *)
Lemma detectCompileErrors_not_the_entries :
  ∃ es, getProp failedData "errors" = Returns (JArr es)
        ∧ detectCompileErrors failedData ≠ Returns (List.filter isErrorEntry es).
Proof. eexists. split; [reflexivity | discriminate]. Qed.

(** C6, amended: for an [errors] array without [null] entries,
    [detectCompileErrors] returns, in order, the [formattedMessage] of every
    object entry whose severity is "error" and every string entry that does
    not match "Warning"; when that list is not empty and the input carries
    ASTs, [compileJsonData] raises a compile-failure error holding the list,
    and resolves to nothing. *)
Theorem detectCompileErrors_reports (fileName : string) (data sources : json) (es : list json) :
  getProp data "errors" = Returns (JArr es) →
  JNull ∉ es →
  detectCompileErrors data = Returns (reported <$> List.filter isErrorEntry es)
  ∧ (instanceofObject data = true →
     getProp data "sources" = Returns sources →
     instanceofObject sources = true →
     consistentlyContainsOneOf sources astProps = Returns true →
     List.filter isErrorEntry es ≠ [] →
     compileJsonData fileName data
     = Raised (CompileFailedError [(None, reported <$> List.filter isErrorEntry es)])).
Proof.
  intros Herrs Hnull.
  assert (Hdet : detectCompileErrors data = Returns (reported <$> List.filter isErrorEntry es)).
  { unfold detectCompileErrors. rewrite Herrs. simpl. apply detectLoop_reported, Hnull. }
  split; [exact Hdet|].
  intros Hdata Hsrc Hobj Hast Hne.
  unfold compileJsonData. rewrite Hdata, Hsrc, Hobj, Hast, Hdet. simpl.
  destruct (List.filter isErrorEntry es); [congruence | reflexivity].
Qed.

Lemma detectCompileErrors_reports_witness :
  detectCompileErrors failedData
  = Returns [JStr "ParserError: a.sol:1"; JStr "a.sol:1:1: Error: expected }"]
  ∧ compileJsonData "failed.json" failedData
    = Raised (CompileFailedError
                [(None, [JStr "ParserError: a.sol:1"; JStr "a.sol:1:1: Error: expected }"])]).
Proof.
  destruct (detectCompileErrors_reports "failed.json" failedData
              (JObj [("a.sol", JObj [("ast", JObj []); ("source", JStr "contract C {")])])
              _ eq_refl) as [H1 H2].
  { intros Hin. repeat (apply elem_of_cons in Hin as [Hin|Hin]; [discriminate|]).
    inversion Hin. }
  split; [exact H1|].
  apply H2; try reflexivity. discriminate.
Defined.

End JsonFacts.

(** ** More on the compiler-output intake *)

Module JsonMoreFacts.
Import Json JsonProps JsonMore JsonFacts.

Lemma fillStep_lookup (files : gmap string string) (name : string) (entry : string * json) :
  fillStep files entry !! name
  = if decide (entry.1 = name)
    then match sourceText entry.2 with
         | Some src => Some src
         | None => files !! name
         end
    else files !! name.
Proof.
  destruct entry as [fileName section]. unfold fillStep, sourceText. simpl.
  destruct (truthy section); [|case_decide; reflexivity].
  destruct (getProp section "source") as [[]|]; try (case_decide; reflexivity).
  rewrite lookup_insert. case_decide; reflexivity.
Qed.

Lemma fill_absent (fs : list (string * json)) (files : gmap string string) (name : string) :
  name ∉ fs.*1 → foldl fillStep files fs !! name = files !! name.
Proof.
  revert files. induction fs as [|[k s] fs IH]; intros files Hno; [reflexivity|].
  apply not_elem_of_cons in Hno as [Hne Hno].
  change (foldl fillStep (fillStep files (k, s)) fs !! name = files !! name).
  rewrite IH by exact Hno. rewrite fillStep_lookup.
  case_decide; [simpl in *; congruence | reflexivity].
Qed.

(** X5: [fillFilesFromSources] writes one file per section that holds its
    text: under a file name that no section bears the entry of [files] is
    left as it was, and under the name of a section (the names being those
    of an object, each borne once) the file is the [source] of the section
    when that is a string, and is left as it was otherwise. *)
Theorem fillFilesFromSources_lookup (files : gmap string string)
    (fs : list (string * json)) (name : string) :
  (name ∉ fs.*1 → fillFilesFromSources files (JObj fs) !! name = files !! name)
  ∧ (∀ section, NoDup fs.*1 → (name, section) ∈ fs →
       fillFilesFromSources files (JObj fs) !! name
       = match sourceText section with
         | Some src => Some src
         | None => files !! name
         end).
Proof.
  unfold fillFilesFromSources. change (entries (JObj fs)) with fs.
  split; [apply fill_absent|].
  intros section Hdup Hin. revert files.
  induction fs as [|[k s] fs IH]; intros files; [inversion Hin|].
  apply NoDup_cons in Hdup as [Hk Hdup].
  change (foldl fillStep (fillStep files (k, s)) fs !! name
          = match sourceText section with
            | Some src => Some src
            | None => files !! name
            end).
  apply elem_of_cons in Hin as [[= <- <-]|Hin].
  - rewrite fill_absent by exact Hk. rewrite fillStep_lookup.
    case_decide; [reflexivity | simpl in *; congruence].
  - rewrite (IH Hdup Hin). rewrite fillStep_lookup.
    case_decide; [|reflexivity].
    simpl in *. subst k. exfalso. apply Hk. apply list_elem_of_fmap.
    exists (name, section). auto.
Qed.

Lemma fillFilesFromSources_lookup_witness :
  fillFilesFromSources ∅ twoFiles !! "a.sol" = Some "contract A {}"
  ∧ fillFilesFromSources ∅ twoFiles !! "b.sol" = None.
Proof.
  split.
  - refine (proj2 (fillFilesFromSources_lookup ∅ _ "a.sol")
              (JObj [("ast", JObj []); ("source", JStr "contract A {}")]) _ _).
    + repeat (apply NoDup_cons; split; [intros H; repeat (apply elem_of_cons in H as [H|H]; [discriminate|]); inversion H|]). apply NoDup_nil_2.
    + apply list_elem_of_In. simpl. auto.
  - refine (proj2 (fillFilesFromSources_lookup ∅ _ "b.sol")
              (JObj [("ast", JObj [])]) _ _).
    + repeat (apply NoDup_cons; split; [intros H; repeat (apply elem_of_cons in H as [H|H]; [discriminate|]); inversion H|]). apply NoDup_nil_2.
    + apply list_elem_of_In. simpl. auto.
Defined.

Lemma textsLoop_objects (es : list (string * json)) :
  forallb isObjectLiteral es.*2 = true →
  textsLoop es = Returns ((λ e, (e.1, sourceOf e.2)) <$> es).
Proof.
  induction es as [|[k s] es IH]; simpl; [reflexivity|].
  intros [Hs Hes]%andb_prop. destruct s; try discriminate. simpl.
  rewrite (IH Hes). reflexivity.
Qed.

(** X6: the typed ASTs have precedence over the texts. For sections that
    are objects, [compileJsonData] hands the input over to the compiler
    exactly when no one of [ast], [legacyAST], [AST] is in every section
    while [source] is in every section; what it hands over is the [source]
    of every section under its file name, in the order of the sections. In
    particular input whose sections all carry [ast] is never compiled
    again, whatever texts it carries. *)
Theorem compileJsonData_requests_iff (fileName : string) (data sources : json)
    (texts : list (string * json)) :
  instanceofObject data = true →
  getProp data "sources" = Returns sources →
  instanceofObject sources = true →
  forallb isObjectLiteral (values sources) = true →
  compileJsonData fileName data = CompileRequest texts
  ↔ existsb (λ p, forallb (ownsProp p) (values sources)) astProps = false
    ∧ forallb (ownsProp "source") (values sources) = true
    ∧ texts = (λ e, (e.1, sourceOf e.2)) <$> entries sources.
Proof.
  intros Hdata Hsrc Hobj Hsections.
  unfold compileJsonData, consistentlyContainsOneOf, sourceTexts.
  rewrite Hdata, Hsrc, Hobj. simpl negb. cbv iota.
  rewrite !containsLoop_objects by exact Hsections.
  rewrite textsLoop_objects by exact Hsections.
  destruct (existsb _ astProps).
  - destruct (detectCompileErrors data) as [[|e es]|e];
      split; try discriminate; intros [[=] _].
  - simpl existsb. rewrite orb_false_r.
    destruct (forallb (ownsProp "source") (values sources)).
    + split; [intros [= <-]; auto | intros (_ & _ & ->); reflexivity].
    + split; [discriminate | intros (_ & [=] & _)].
Qed.

Lemma compileJsonData_requests_iff_witness :
  compileJsonData "texts.json" twoTexts
  = CompileRequest [("a.sol", JStr "contract A {}"); ("b.sol", JStr "contract B {}")].
Proof.
  apply (compileJsonData_requests_iff "texts.json" twoTexts
           (JObj [("a.sol", JObj [("source", JStr "contract A {}")]);
                  ("b.sol", JObj [("source", JStr "contract B {}")])]));
    try reflexivity.
  split; [|split]; reflexivity.
Defined.

(** X7: an empty [sources] is taken for compiled output: every property is
    in every one of no sections, so without reported errors the data
    resolves as it is, with no files, and is never sent to the compiler. *)
Theorem compileJsonData_empty_sources (fileName : string) (data sources : json) :
  instanceofObject data = true →
  getProp data "sources" = Returns sources →
  instanceofObject sources = true →
  entries sources = [] →
  detectCompileErrors data = Returns [] →
  compileJsonData fileName data = Resolved (mkCompileResult data None ∅).
Proof.
  intros Hdata Hsrc Hobj Hnone Herrors.
  unfold compileJsonData, consistentlyContainsOneOf, values, fillFilesFromSources.
  rewrite Hdata, Hsrc, Hobj, Hnone. simpl. rewrite Herrors. reflexivity.
Qed.

Lemma compileJsonData_empty_sources_witness :
  compileJsonData "empty.json" (JObj [("sources", JObj [])])
  = Resolved (mkCompileResult (JObj [("sources", JObj [])]) None ∅).
Proof.
  apply (compileJsonData_empty_sources "empty.json" _ (JObj [])); reflexivity.
Defined.

Lemma every_primitive (p : string) (pre post : list json) (s : json) :
  forallb (ownsProp p) pre = true → isPrimitive s = true →
  every p (pre ++ s :: post) = Throws TypeError.
Proof.
  intros Hpre Hs. induction pre as [|x pre IH]; simpl.
  - destruct s; try discriminate; reflexivity.
  - simpl in Hpre. apply andb_prop in Hpre as [Hx Hpre].
    destruct x; try discriminate. simpl in *. rewrite Hx. simpl. apply IH, Hpre.
Qed.

(** X8: a section that is null or a primitive makes the intake fail with a
    TypeError, not with its own error: when the sections before it all
    carry [ast], the test [property in section] is reached for it and
    throws. *)
Theorem compileJsonData_primitive_section (fileName : string) (data sources : json)
    (pre post : list json) (section : json) :
  instanceofObject data = true →
  getProp data "sources" = Returns sources →
  instanceofObject sources = true →
  values sources = pre ++ section :: post →
  forallb (ownsProp "ast") pre = true →
  isPrimitive section = true →
  compileJsonData fileName data = Raised TypeError.
Proof.
  intros Hdata Hsrc Hobj Hvalues Hpre Hsection.
  unfold compileJsonData, consistentlyContainsOneOf.
  rewrite Hdata, Hsrc, Hobj, Hvalues. simpl.
  rewrite (every_primitive "ast" pre post section Hpre Hsection). reflexivity.
Qed.

Lemma compileJsonData_primitive_section_witness :
  compileJsonData "null.json"
    (JObj [("sources", JObj [("a.sol", JObj [("ast", JObj [])]); ("b.sol", JNull)])])
  = Raised TypeError.
Proof.
  apply (compileJsonData_primitive_section "null.json" _
           (JObj [("a.sol", JObj [("ast", JObj [])]); ("b.sol", JNull)])
           [JObj [("ast", JObj [])]] [] JNull); reflexivity.
Defined.

Lemma detectLoop_null (pre post : list json) :
  JNull ∉ pre → detectLoop (pre ++ JNull :: post) = Throws TypeError.
Proof.
  induction pre as [|e pre IH]; simpl; [reflexivity|].
  intros [Hne Hpre]%not_elem_of_cons.
  rewrite detectOne_reported by congruence. simpl. rewrite (IH Hpre). reflexivity.
Qed.

(** X9: [detectCompileErrors] finds nothing when [errors] is not an array
    (absent, say), and throws a TypeError, instead of returning, when the
    array holds a null: [typeof null] is "object" and its [severity] is
    read. *)
Theorem detectCompileErrors_edges (data : json) :
  (∀ errs, getProp data "errors" = Returns errs → (∀ es, errs ≠ JArr es) →
           detectCompileErrors data = Returns [])
  ∧ (∀ pre post, getProp data "errors" = Returns (JArr (pre ++ JNull :: post)) →
                 JNull ∉ pre →
                 detectCompileErrors data = Throws TypeError).
Proof.
  unfold detectCompileErrors. split.
  - intros errs -> Hno. simpl. destruct errs; try reflexivity.
    exfalso. eapply Hno. reflexivity.
  - intros pre post -> Hpre. simpl. apply detectLoop_null, Hpre.
Qed.

Lemma detectCompileErrors_edges_witness :
  detectCompileErrors (JObj [("sources", JObj [])]) = Returns []
  ∧ detectCompileErrors (JObj [("errors", JArr [JStr "Warning: unused"; JNull])])
    = Throws TypeError.
Proof.
  split.
  - apply (proj1 (detectCompileErrors_edges (JObj [("sources", JObj [])])) JUndefined eq_refl).
    discriminate.
  - apply (proj2 (detectCompileErrors_edges
                    (JObj [("errors", JArr [JStr "Warning: unused"; JNull])]))
                 [JStr "Warning: unused"] [] eq_refl).
    intros H. apply list_elem_of_singleton in H. discriminate.
Defined.

End JsonMoreFacts.

(** ** The entry point of the reader *)

Module ReaderFacts.
Import Json JsonProps Reader ReaderProps.

Lemma typedAsts_records (section : json) (p : string) (root : json) :
  (p, root) ∈ typedAsts section ↔ records p root section.
Proof.
  unfold records, typedAsts. split.
  - destruct section as [| | | | | |fs]; try (intros H; inversion H; fail).
    intros H. apply list_elem_of_omap in H as (q & Hq & Hfield).
    destruct (assoc q fs) as [r|] eqn:Hr; [|discriminate]. injection Hfield as <- <-.
    split; [exact Hq|]. eauto.
  - intros [Hp (fs & -> & Hroot)]. apply list_elem_of_omap.
    exists p. split; [exact Hp|]. rewrite Hroot. reflexivity.
Qed.

(** A section records each typed-AST field once. *)
Lemma typedAsts_keys (section : json) : NoDup (typedAsts section).*1.
Proof.
  destruct section as [| | | | | |fs]; try apply NoDup_nil_2. simpl.
  destruct (assoc "ast" fs), (assoc "legacyAST" fs), (assoc "AST" fs); simpl;
    repeat (apply NoDup_cons; split; [|]); try apply NoDup_nil_2;
    intros H; repeat (apply elem_of_cons in H as [H|H]; [discriminate|]); inversion H.
Qed.

Lemma typedAsts_only (section : json) (p : string) (root : json) :
  recordsOnly p root section → typedAsts section = [(p, root)].
Proof.
  intros [Hrec Hother]. pose proof (typedAsts_keys section) as Hdup.
  apply typedAsts_records in Hrec.
  assert (Hall : ∀ q other, (q, other) ∈ typedAsts section → q = p).
  { intros q other H. apply typedAsts_records in H. eapply Hother, H. }
  destruct (typedAsts section) as [|[q1 r1] rest]; [inversion Hrec|].
  destruct rest as [|[q2 r2] rest].
  - apply list_elem_of_singleton in Hrec. rewrite Hrec. reflexivity.
  - exfalso. simpl in Hdup. apply NoDup_cons in Hdup as [Hno _]. apply Hno.
    rewrite (Hall q1 r1) by apply list_elem_of_here.
    rewrite (Hall q2 r2) by (apply elem_of_cons; right; apply list_elem_of_here).
    apply list_elem_of_here.
Qed.

Section Read.

Context {SourceUnit E : Type}.
Variable translate : schema → json → result E SourceUnit.

Lemma readSection_yields (entry : string * json) (unit : SourceUnit) :
  yields translate entry unit → readSection translate entry = Returns unit.
Proof.
  intros (p & root & Honly & Hu). unfold readSection.
  rewrite (typedAsts_only _ _ _ Honly), Hu. reflexivity.
Qed.

Lemma readSection_stemsFrom (entry : string * json) (unit : SourceUnit) :
  readSection translate entry = Returns unit → stemsFrom translate entry unit.
Proof.
  unfold readSection, stemsFrom.
  destruct (typedAsts (snd entry)) as [|[p root] rest] eqn:Hasts; [discriminate|].
  destruct (translate (schemaOf root) root) as [u|e] eqn:Hu; [|discriminate].
  intros [= <-]. exists p, root. split; [|exact Hu].
  apply typedAsts_records. rewrite Hasts. apply list_elem_of_here.
Qed.

Lemma readSections_yields (sections : list (string * json)) (units : list SourceUnit) :
  Forall2 (yields translate) sections units →
  readSections translate sections = Returns units.
Proof.
  induction 1 as [|entry u rest us Hu _ IH]; simpl; [reflexivity|].
  rewrite (readSection_yields _ _ Hu). simpl. rewrite IH. reflexivity.
Qed.

Lemma readSections_stemFrom (sections : list (string * json)) (units : list SourceUnit) :
  readSections translate sections = Returns units →
  Forall2 (stemsFrom translate) sections units.
Proof.
  revert units. induction sections as [|entry rest IH]; intros units; simpl.
  - intros [= <-]. constructor.
  - intros H. destruct (readSection translate entry) as [u|e] eqn:Hu; [|discriminate].
    simpl in H. destruct (readSections translate rest) as [us|e] eqn:Hus; [|discriminate].
    injection H as <-. constructor; [apply readSection_stemsFrom, Hu | apply IH; reflexivity].
Qed.

End Read.



End ReaderFacts.

(** ** The sanity checker *)

Module CheckerFacts.
Import AST CheckerProps.

Lemma bind_Returns {E A B} (m : result E A) (k : A → result E B) (b : B) :
  bind m k = Returns b → ∃ a, m = Returns a ∧ k a = Returns b.
Proof. destruct m as [a|e]; simpl; [eauto | discriminate]. Qed.

(** Take apart a sequence of checks that returned. *)
Ltac returned :=
  repeat match goal with
         | H : bind _ _ = Returns _ |- _ =>
             let u := fresh "u" in
             let H1 := fresh "Hstep" in
             apply bind_Returns in H as (u & H1 & H)
         end.

(** *** The helpers *)

Lemma matchElements_agree node f vf idx val1 val2 :
  length val1 = length val2 →
  matchElements node f vf idx val1 val2 = Returns () → Forall2 matches val1 val2.
Proof.
  revert idx val2. induction val1 as [|el1 rest1 IH]; intros idx [|el2 rest2] Hlen H;
    try discriminate; [constructor|].
  simpl in H. destruct el1; try discriminate. destruct el2; try discriminate.
  destruct (n =? id r) eqn:Hid; [|discriminate].
  constructor.
  - exists n, r. split; [reflexivity|]. split; [reflexivity|]. symmetry. apply Z.eqb_eq, Hid.
  - apply (IH (S idx)); [|exact H]. simpl in Hlen. congruence.
Qed.

Lemma checkFieldAndVFieldMatch_agrees node f vf :
  checkFieldAndVFieldMatch node f vf = Returns () → agrees node f vf.
Proof.
  unfold checkFieldAndVFieldMatch, agrees. destruct (get node f); try discriminate.
  - destruct (get node vf); try discriminate.
    destruct (n =? id r) eqn:Hid; [|discriminate].
    intros _. exists r. split; [reflexivity|]. symmetry. apply Z.eqb_eq, Hid.
  - destruct (get node vf); try discriminate.
    destruct (Nat.eqb (length items) (length items0)) eqn:Hlen; [|discriminate]. simpl.
    intros H. exists items0. split; [reflexivity|].
    apply Nat.eqb_eq in Hlen. eapply matchElements_agree; eassumption.
Qed.

Lemma checkScope_agrees node ctx :
  checkScope node ctx = Returns () → agrees node "scope" "vScope".
Proof.
  unfold checkScope. intros H. returned. apply checkFieldAndVFieldMatch_agrees.
  destruct u. exact Hstep.
Qed.

Lemma checkReferencedDeclaration_agrees node ctx :
  checkReferencedDeclaration node ctx = Returns () →
  agrees node "referencedDeclaration" "vReferencedDeclaration".
Proof.
  unfold checkReferencedDeclaration. intros H. returned.
  apply checkFieldAndVFieldMatch_agrees. destruct u. exact Hstep.
Qed.

Lemma checkNode_checkByType ctx node :
  checkNode ctx node = Returns () → isLeaf (type (self node)) = false →
  checkByType node ctx = Returns ().
Proof.
  unfold checkNode. destruct (contains ctx (self node)); [simpl|discriminate].
  intros H Hleaf. returned. rewrite Hleaf in H. exact H.
Qed.

Lemma checkNode_parents ctx node :
  checkNode ctx node = Returns () →
  ∀ child, child ∈ children node → parent child = Some (addr (self node)).
Proof.
  unfold checkNode. destruct (contains ctx (self node)); [simpl|discriminate].
  intros H. returned. destruct u. apply forEach_Returns in Hstep.
  rewrite Forall_forall in Hstep. intros child Hin. specialize (Hstep child Hin).
  unfold checkParent in Hstep. destruct (parent child) as [p|]; [|discriminate].
  destruct (Nat.eqb p (addr (self node))) eqn:Hp; [|discriminate].
  apply Nat.eqb_eq in Hp. congruence.
Qed.

Lemma checkParent_wrong node child :
  parent child ≠ Some (addr (self node)) →
  checkParent node child
  = Throws (InsaneASTError (WrongParent (self child) (self node) (parent child))).
Proof.
  unfold checkParent. destruct (parent child) as [p|]; [|reflexivity].
  destruct (Nat.eqb p (addr (self node))) eqn:Hp; [|reflexivity].
  apply Nat.eqb_eq in Hp. subst p. congruence.
Qed.

Lemma checkParent_right node child :
  parent child = Some (addr (self node)) → checkParent node child = Returns ().
Proof. unfold checkParent. intros ->. rewrite Nat.eqb_refl. reflexivity. Qed.

Lemma checkNode_pairs ctx node f vf :
  checkNode ctx node = Returns () → (f, vf) ∈ checkedPairs node → agrees node f vf.
Proof.
  intros Hnode Hin. unfold checkedPairs in Hin.
  assert (Hleaf : isLeaf (type (self node)) = false).
  { destruct (type (self node)); try reflexivity; inversion Hin. }
  pose proof (checkNode_checkByType _ _ Hnode Hleaf) as H. clear Hnode Hleaf.
  unfold checkByType in H.
  destruct (type (self node)); try (inversion Hin; fail);
    try destruct (referenceResolved node);
    repeat (apply elem_of_cons in Hin as [[= -> ->]|Hin]);
    try (inversion Hin; fail); returned;
    repeat match goal with u : unit |- _ => destruct u end;
    eauto using checkFieldAndVFieldMatch_agrees, checkScope_agrees,
                checkReferencedDeclaration_agrees.
Qed.

(** *** Only the parent check raises the error of the parent check *)

Lemma bind_Throws {E A B} (m : result E A) (k : A → result E B) (e : E) :
  bind m k = Throws e → m = Throws e ∨ ∃ a, m = Returns a ∧ k a = Throws e.
Proof. destruct m as [a|e']; simpl; [eauto | intros [= ->]; auto]. Qed.

(** Take apart a sequence of checks that threw. *)
Ltac thrown :=
  repeat match goal with
         | H : Returns _ = Throws _ |- _ => discriminate H
         | H : Throws _ = Throws _ |- _ => injection H as <-
         | H : bind _ _ = Throws _ |- _ =>
             let a := fresh "a" in
             let Ha := fresh "Ha" in
             apply bind_Throws in H as [H|(a & Ha & H)]
         | H : (if ?b then _ else _) = Throws _ |- _ => destruct b
         | H : match ?x with _ => _ end = Throws _ |- _ => destruct x
         end.

Lemma inCtx_throws arg ctx e : inCtx arg ctx = Throws e → wrongParent e = false.
Proof.
  revert arg e. fix IH 1. intros [| | | | |r|items|entries] e; simpl;
    try (intros [= <-]; reflexivity); try discriminate.
  induction items as [|x items IHitems]; [discriminate|].
  intros H. apply bind_Throws in H as [H|(b & Hb & H)]; [eapply IH, H|].
  destruct b; [apply IHitems, H | discriminate].
Qed.

Lemma forEach_throws {A} (body : A → check) xs e :
  (∀ x e', body x = Throws e' → wrongParent e' = false) →
  forEach body xs = Throws e → wrongParent e = false.
Proof.
  intros Hbody H. apply forEach_Throws in H as (pre & x & post & _ & _ & Hx). eauto.
Qed.

Lemma checkVFieldCtx_throws node prop ctx e :
  checkVFieldCtx node prop ctx = Throws e → wrongParent e = false.
Proof.
  unfold checkVFieldCtx. intros H. destruct (get node prop); thrown; try reflexivity.
  eapply forEach_throws; [|exact H]. clear. intros [idx el] e H.
  destruct el; thrown; try reflexivity. eapply inCtx_throws, H.
Qed.

Lemma matchElements_throws node f vf idx val1 val2 e :
  matchElements node f vf idx val1 val2 = Throws e → wrongParent e = false.
Proof.
  revert idx val2. induction val1 as [|el1 rest1 IH]; intros idx [|el2 rest2] H;
    simpl in H; try discriminate.
  destruct el1; try (injection H as <-; reflexivity).
  destruct el2; try (injection H as <-; reflexivity).
  destruct (n =? id r); [eapply IH, H | injection H as <-; reflexivity].
Qed.

Lemma checkFieldAndVFieldMatch_throws node f vf e :
  checkFieldAndVFieldMatch node f vf = Throws e → wrongParent e = false.
Proof.
  unfold checkFieldAndVFieldMatch. intros H.
  destruct (get node f); try (injection H as <-; reflexivity);
    destruct (get node vf); try (injection H as <-; reflexivity).
  - destruct (n =? id r); [discriminate | injection H as <-; reflexivity].
  - destruct (negb _); [injection H as <-; reflexivity | eapply matchElements_throws, H].
Qed.

Lemma coverElement_throws node field at_ direct computed el e :
  coverElement node field at_ direct computed el = Throws e → wrongParent e = false.
Proof. unfold coverElement. intros H. thrown; reflexivity. Qed.

Lemma coverArray_throws node field i direct computed val e :
  coverArray node field i direct computed val = Throws e → wrongParent e = false.
Proof.
  revert i computed. induction val as [|el rest IH]; intros i computed H; simpl in H;
    [discriminate|].
  apply bind_Throws in H as [H|(c & _ & H)]; [eapply coverElement_throws, H | eapply IH, H].
Qed.

Lemma coverMap_throws node field direct computed val e :
  coverMap node field direct computed val = Throws e → wrongParent e = false.
Proof.
  revert computed. induction val as [|[k v] rest IH]; intros computed H; simpl in H;
    [discriminate|].
  apply bind_Throws in H as [H|(c & _ & H)]; [eapply coverElement_throws, H | eapply IH, H].
Qed.

Lemma coverFields_throws node direct computed fields e :
  coverFields node direct computed fields = Throws e → wrongParent e = false.
Proof.
  revert computed. induction fields as [|field rest IH]; intros computed H; simpl in H;
    [discriminate|].
  apply bind_Throws in H as [H|(c & _ & H)]; [|eapply IH, H].
  unfold coverField in H. destruct (get node field); thrown; try reflexivity;
    eauto using coverArray_throws, coverMap_throws.
Qed.

Lemma checkDirectChildren_throws node fields e :
  checkDirectChildren node fields = Throws e → wrongParent e = false.
Proof.
  unfold checkDirectChildren. intros H.
  apply bind_Throws in H as [H|(c & _ & H)]; [eapply coverFields_throws, H|].
  thrown. reflexivity.
Qed.

Lemma checkDocumentedChildren_throws node ctx fields e :
  checkDocumentedChildren node ctx fields = Throws e → wrongParent e = false.
Proof.
  unfold checkDocumentedChildren. intros H. thrown;
    eauto using checkVFieldCtx_throws, checkDirectChildren_throws.
Qed.

Lemma checkExportedSymbols_throws node ctx e :
  checkExportedSymbols node ctx = Throws e → wrongParent e = false.
Proof.
  unfold checkExportedSymbols. intros H. destruct (get node "exportedSymbols"); thrown;
    try reflexivity.
  eapply forEach_throws; [|exact H]. clear. intros [name symId] e H.
  unfold checkExportedSymbol in H. thrown; reflexivity.
Qed.

Lemma checkSymbolAliases_throws node ctx e :
  checkSymbolAliases node ctx = Throws e → wrongParent e = false.
Proof.
  unfold checkSymbolAliases. intros H. destruct (get node "vSymbolAliases"); thrown;
    try reflexivity.
  eapply forEach_throws; [|exact H]. clear. intros alias e H.
  cbv beta in H. thrown; try reflexivity. eapply inCtx_throws; eassumption.
Qed.

Lemma checkScope_throws node ctx e :
  checkScope node ctx = Throws e → wrongParent e = false.
Proof.
  unfold checkScope. intros H. thrown;
    eauto using checkFieldAndVFieldMatch_throws, checkVFieldCtx_throws.
Qed.

Lemma checkReferencedDeclaration_throws node ctx e :
  checkReferencedDeclaration node ctx = Throws e → wrongParent e = false.
Proof.
  unfold checkReferencedDeclaration. intros H. thrown;
    eauto using checkFieldAndVFieldMatch_throws, checkVFieldCtx_throws.
Qed.

Lemma checkByType_throws node ctx e :
  checkByType node ctx = Throws e → wrongParent e = false.
Proof.
  unfold checkByType. intros H.
  destruct (type (self node));
    repeat match goal with
           | H : Returns _ = Throws _ |- _ => discriminate H
           | H : Throws _ = Throws _ |- _ => injection H as <-
           | H : bind _ _ = Throws _ |- _ =>
               let a := fresh "a" in
               let Ha := fresh "Ha" in
               apply bind_Throws in H as [H|(a & Ha & H)]
           | H : (if ?b then _ else _) = Throws _ |- _ => destruct b
           | H : match get ?n ?f with _ => _ end = Throws _ |- _ => destruct (get n f)
           end;
    try reflexivity;
    eauto using checkFieldAndVFieldMatch_throws, checkVFieldCtx_throws,
                checkDirectChildren_throws, checkDocumentedChildren_throws,
                checkExportedSymbols_throws, checkSymbolAliases_throws,
                checkScope_throws, checkReferencedDeclaration_throws.
Qed.

Lemma checkParent_throws node child e :
  checkParent node child = Throws e →
  e = InsaneASTError (WrongParent (self child) (self node) (parent child))
  ∧ parent child ≠ Some (addr (self node)).
Proof.
  unfold checkParent. destruct (parent child) as [p|]; [|intros [= <-]; split; [reflexivity | discriminate]].
  destruct (Nat.eqb p (addr (self node))) eqn:Hp; [discriminate|].
  intros [= <-]. split; [reflexivity|]. apply Nat.eqb_neq in Hp. congruence.
Qed.

Lemma checkNode_wrongParent ctx node child owner got :
  checkNode ctx node = Throws (InsaneASTError (WrongParent child owner got)) →
  ∃ c, c ∈ children node ∧ self c = child ∧ self node = owner ∧ parent c = got
       ∧ got ≠ Some (addr owner).
Proof.
  unfold checkNode. destruct (contains ctx (self node)); simpl; [|discriminate].
  intros H. apply bind_Throws in H as [H|([] & _ & H)].
  - apply forEach_Throws in H as (pre & c & post & Hsplit & _ & Hc).
    apply checkParent_throws in Hc as [Heq Hne]. injection Heq as Hchild Howner Hgot.
    subst child owner got.
    exists c. split; [|auto]. rewrite Hsplit. apply elem_of_app. right.
    apply elem_of_cons. left. reflexivity.
  - destruct (isLeaf (type (self node))); [discriminate|].
    apply checkByType_throws in H. discriminate.
Qed.

(** *** What the specification states *)

(** C1 (the code departs from it): the tree read from the output of a
    compiler older than 0.4.12 (or any older than 0.6.3), where the
    documentation of a contract is a string, is not accepted.
    ["documentation"] is in the list of fields that [checkDirectChildren]
    requires to hold nodes, whatever the documentation is, so the check
    throws an [Error] (which [isSane] lets through); the same tree without
    the documentation, or with a [StructuredDocumentation] node for it, is
    accepted. *)
Theorem checkSane_rejects_textual_documentation :
  checkSane legacyUnit sampleCtx
  = Throws (Error (FieldNotNodeOrArray contractRef "documentation"))
  ∧ isSane legacyUnit sampleCtx
    = Throws (Error (FieldNotNodeOrArray contractRef "documentation"))
  ∧ checkSane plainUnit sampleCtx = Returns ()
  ∧ checkSane structuredUnit structuredCtx = Returns ().
Proof. repeat split; vm_compute; reflexivity. Qed.

(** C3, as the specification words it, fails: [checkSane] accepts a source
    unit in which an identifier holds a declaration id and its view is
    undefined. *)
Lemma checkSane_accepts_unresolved_reference :
  checkSane builtinUnit builtinCtx = Returns ()
  ∧ nowNode ∈ getChildren builtinUnit
  ∧ ("referencedDeclaration", "vReferencedDeclaration") ∈ referencePairs
  ∧ ¬ agrees nowNode "referencedDeclaration" "vReferencedDeclaration".
Proof.
  split; [vm_compute; reflexivity|]. split.
  { apply list_elem_of_In. simpl. auto 10. }
  split.
  { apply list_elem_of_In. simpl. auto 10. }
  intros (r & Hr & _). discriminate.
Qed.

(** C3, amended: for every source unit that [checkSane] accepts, every
    reachable node and every pair of a reference field and its view that
    the checker compares on that node (for identifiers, identifier paths and
    member accesses: only when the reference is not null and its view is
    defined) agree: a scalar id is the id of the node the view holds; a list
    of ids has a view of the same length whose nodes carry these ids, index
    by index. [checkSane] raises an error when one of these pairs fails to
    agree. *)
Theorem checkSane_reference_view_agreement (unit : ASTNode) (ctx : ASTContext) :
  (checkSane unit ctx = Returns () →
   ∀ node f vf, node ∈ getChildren unit → (f, vf) ∈ checkedPairs node → agrees node f vf)
  ∧ ((∃ node f vf, node ∈ getChildren unit ∧ (f, vf) ∈ checkedPairs node
                   ∧ ¬ agrees node f vf) →
     ∃ e, checkSane unit ctx = Throws e).
Proof.
  assert (Hsound : checkSane unit ctx = Returns () →
                   ∀ node f vf, node ∈ getChildren unit → (f, vf) ∈ checkedPairs node →
                                agrees node f vf).
  { unfold checkSane. intros H node f vf Hnode Hpair.
    apply forEach_Returns in H. rewrite Forall_forall in H.
    eapply checkNode_pairs; eauto. }
  split; [exact Hsound|].
  intros (node & f & vf & Hnode & Hpair & Hno).
  destruct (checkSane unit ctx) as [[]|e] eqn:H; [|eauto].
  exfalso. apply Hno. eapply Hsound; eauto.
Qed.

(** C4, as the specification words it, fails: the only child of
    [detachedUnit] does not point back at the unit, yet the error
    [checkSane] raises against a context that does not hold the unit is the
    error of the context test, which names the unit and not the child. *)
Lemma checkSane_wrong_parent_unnamed :
  (∃ child, child ∈ children detachedUnit
            ∧ self child = contractRef
            ∧ parent child ≠ Some (addr (self detachedUnit)))
  ∧ checkSane detachedUnit CheckerMore.emptyCtx
    = Throws (InsaneASTError (DifferentContext unitRef 1))
  ∧ wrongParent (InsaneASTError (DifferentContext unitRef 1)) = false.
Proof.
  split; [|split; reflexivity].
  eexists. split; [apply list_elem_of_here|]. split; [reflexivity | discriminate].
Qed.

(** C4, amended: for every source unit that [checkSane] accepts, every
    direct child of every reachable node points back at that node. A unit
    in which some child does not makes [checkSane] raise an error. The error
    of the parent check names the child, the owner and the parent found: it
    is raised when the node that owns the first such child is in the context
    and no node before it in the traversal fails a check, and whenever it is
    raised the child it names is a direct child of the reachable node it
    names whose parent differs from that node. *)
Theorem checkSane_parent_consistency (unit : ASTNode) (ctx : ASTContext) :
  (checkSane unit ctx = Returns () → parentsConsistent unit)
  ∧ (¬ parentsConsistent unit → ∃ e, checkSane unit ctx = Throws e)
  ∧ (∀ before node after pre child post,
       getChildren unit = before ++ node :: after →
       Forall (λ earlier, checkNode ctx earlier = Returns ()) before →
       contains ctx (self node) = true →
       children node = pre ++ child :: post →
       Forall (λ c, parent c = Some (addr (self node))) pre →
       parent child ≠ Some (addr (self node)) →
       checkSane unit ctx
       = Throws (InsaneASTError (WrongParent (self child) (self node) (parent child))))
  ∧ (∀ child owner got,
       checkSane unit ctx = Throws (InsaneASTError (WrongParent child owner got)) →
       ∃ node c, node ∈ getChildren unit ∧ c ∈ children node
                 ∧ self c = child ∧ self node = owner ∧ parent c = got
                 ∧ parent c ≠ Some (addr (self node))).
Proof.
  assert (Hsound : checkSane unit ctx = Returns () → parentsConsistent unit).
  { unfold checkSane. intros H node child Hnode Hchild.
    apply forEach_Returns in H. rewrite Forall_forall in H.
    eapply checkNode_parents; eauto. }
  split; [exact Hsound|]. split; [|split].
  - intros Hno. destruct (checkSane unit ctx) as [[]|e] eqn:H; [|eauto].
    exfalso. apply Hno, Hsound. reflexivity.
  - intros before node after pre child post Hwalk Hbefore Hctx Hchildren Hpre Hchild.
    unfold checkSane. rewrite Hwalk. apply forEach_app_Throws; [exact Hbefore|].
    unfold checkNode. rewrite Hctx. simpl. rewrite Hchildren.
    rewrite (forEach_app_Throws (checkParent node) pre child post
               (InsaneASTError (WrongParent (self child) (self node) (parent child)))).
    + reflexivity.
    + eapply Forall_impl; [exact Hpre|]. intros c Hc. apply checkParent_right, Hc.
    + apply checkParent_wrong, Hchild.
  - intros child owner got H. unfold checkSane in H.
    apply forEach_Throws in H as (before & node & after & Hwalk & _ & Hnode).
    apply checkNode_wrongParent in Hnode as (c & Hc & Hchild & Howner & Hgot & Hne).
    subst child owner got.
    exists node, c. split; [|auto].
    rewrite Hwalk. apply elem_of_app. right. apply elem_of_cons. left. reflexivity.
Qed.

Lemma checkSane_parent_consistency_witness :
  checkSane detachedUnit sampleCtx
  = Throws (InsaneASTError (WrongParent contractRef unitRef None))
  ∧ parentsConsistent plainUnit.
Proof.
  split.
  - destruct (checkSane_parent_consistency detachedUnit sampleCtx) as (_ & _ & H).
    destruct H as [H _].
    refine (H [] detachedUnit _ [] _ [] eq_refl _ eq_refl eq_refl _ _).
    + constructor.
    + constructor.
    + discriminate.
  - destruct (checkSane_parent_consistency plainUnit sampleCtx) as (H & _).
    apply H. vm_compute. reflexivity.
Defined.

Lemma checkSane_reference_view_agreement_witness :
  Forall (λ node, Forall (λ pair, agrees node (fst pair) (snd pair)) (checkedPairs node))
         (getChildren plainUnit).
Proof.
  destruct (checkSane_reference_view_agreement plainUnit sampleCtx) as (H & _).
  apply Forall_forall. intros node Hnode. apply Forall_forall. intros [f vf] Hpair.
  apply H; [vm_compute; reflexivity | exact Hnode | exact Hpair].
Defined.

(** C7: [isSane] returns true exactly when [checkSane] raises nothing,
    returns false when [checkSane] raises a sanity error, and raises again,
    unchanged, whatever else [checkSane] raises. *)
Theorem isSane_wraps_checkSane (unit : ASTNode) (ctx : ASTContext) :
  (isSane unit ctx = Returns true ↔ checkSane unit ctx = Returns ())
  ∧ (∀ m, checkSane unit ctx = Throws (InsaneASTError m) → isSane unit ctx = Returns false)
  ∧ (∀ e, checkSane unit ctx = Throws e → (∀ m, e ≠ InsaneASTError m) →
          isSane unit ctx = Throws e).
Proof.
  unfold isSane. destruct (checkSane unit ctx) as [[]|e].
  - split; [tauto|]. split; intros; discriminate.
  - split; [|split].
    + destruct e; split; discriminate.
    + intros m [= ->]. reflexivity.
    + intros e' [= <-] Hother. destruct e; try reflexivity.
      exfalso. eapply Hother. reflexivity.
Qed.

Lemma isSane_wraps_checkSane_witness :
  isSane plainUnit sampleCtx = Returns true
  ∧ isSane detachedUnit sampleCtx = Returns false
  ∧ isSane legacyUnit sampleCtx
    = Throws (Error (FieldNotNodeOrArray contractRef "documentation")).
Proof.
  split; [|split].
  - apply (isSane_wraps_checkSane plainUnit sampleCtx). vm_compute. reflexivity.
  - destruct (isSane_wraps_checkSane detachedUnit sampleCtx) as (_ & H & _).
    apply (H (WrongParent contractRef unitRef None)). vm_compute. reflexivity.
  - destruct (isSane_wraps_checkSane legacyUnit sampleCtx) as (_ & _ & H).
    apply H; [vm_compute; reflexivity | discriminate].
Defined.

End CheckerFacts.

(** ** The helpers of the checker, and what an accepted tree guarantees *)

Module CheckerMoreFacts.
Import AST CheckerProps CheckerMore CheckerFacts.

#[local] Set Warnings "-clear-no-such-hyp".

Lemma addresses_nil : addresses [] = ∅.
Proof. reflexivity. Qed.

Lemma addresses_app (l1 l2 : list NodeRef) :
  addresses (l1 ++ l2) = addresses l1 ∪ addresses l2.
Proof. unfold addresses. rewrite fmap_app, list_to_set_app_L. reflexivity. Qed.

Lemma addresses_singleton (r : NodeRef) : addresses [r] = {[addr r]}.
Proof. unfold addresses. simpl. apply (right_id_L ∅ (∪)). Qed.

(** *** [checkDirectChildren] *)

Lemma coverElement_Returns node field at_ (D C C' : gset nat) el :
  coverElement node field at_ D C el = Returns C' →
  C' = C ∪ addresses (elementNodes el) ∧ addresses (elementNodes el) ⊆ D
  ∧ nodeOrNull el = true.
Proof.
  unfold coverElement. destruct el; try discriminate; simpl.
  - intros [= <-]. rewrite addresses_nil. split; [set_solver|]. split; [set_solver | reflexivity].
  - destruct (decide (addr r ∈ D)) as [Hin|]; [|discriminate]. intros [= <-].
    rewrite addresses_singleton. split; [set_solver|]. split; [set_solver | reflexivity].
Qed.

Lemma coverElement_shaped node field at_ (D C : gset nat) el :
  nodeOrNull el = true → addresses (elementNodes el) ⊆ D →
  coverElement node field at_ D C el = Returns (C ∪ addresses (elementNodes el)).
Proof.
  unfold coverElement. destruct el; try discriminate; simpl; intros _.
  - rewrite addresses_nil. intros _. f_equal. set_solver.
  - rewrite addresses_singleton. intros Hsub.
    destruct (decide (addr r ∈ D)) as [_|Hno]; [|set_solver]. f_equal. set_solver.
Qed.

Lemma coverArray_Returns node field i (D C C' : gset nat) val :
  coverArray node field i D C val = Returns C' →
  C' = C ∪ addresses (flat_map elementNodes val)
  ∧ addresses (flat_map elementNodes val) ⊆ D ∧ forallb nodeOrNull val = true.
Proof.
  revert i C. induction val as [|el rest IH]; intros i C H; simpl in H.
  - injection H as <-. simpl. rewrite addresses_nil. split; [set_solver|]. split; [set_solver|reflexivity].
  - apply bind_Returns in H as (C1 & H1 & H).
    apply coverElement_Returns in H1 as (-> & Hsub1 & Hel).
    apply IH in H as (-> & Hsub & Hrest). simpl. rewrite addresses_app, Hel, Hrest.
    split; [set_solver|]. split; [set_solver | reflexivity].
Qed.

Lemma coverArray_shaped node field i (D C : gset nat) val :
  forallb nodeOrNull val = true → addresses (flat_map elementNodes val) ⊆ D →
  coverArray node field i D C val = Returns (C ∪ addresses (flat_map elementNodes val)).
Proof.
  revert i C. induction val as [|el rest IH]; intros i C Hshape Hsub; simpl.
  - rewrite addresses_nil. f_equal. set_solver.
  - simpl in Hshape, Hsub. apply andb_true_iff in Hshape as [Hel Hrest].
    rewrite addresses_app in Hsub.
    rewrite (coverElement_shaped _ _ _ _ _ _ Hel) by set_solver. simpl.
    rewrite IH by (auto; set_solver). rewrite addresses_app. f_equal. set_solver.
Qed.

Lemma coverMap_Returns node field (D C C' : gset nat) val :
  coverMap node field D C val = Returns C' →
  C' = C ∪ addresses (flat_map (λ entry, elementNodes (snd entry)) val)
  ∧ addresses (flat_map (λ entry, elementNodes (snd entry)) val) ⊆ D
  ∧ forallb (λ entry, nodeOrNull (snd entry)) val = true.
Proof.
  revert C. induction val as [|[k el] rest IH]; intros C H; simpl in H.
  - injection H as <-. simpl. rewrite addresses_nil. split; [set_solver|]. split; [set_solver|reflexivity].
  - apply bind_Returns in H as (C1 & H1 & H).
    apply coverElement_Returns in H1 as (-> & Hsub1 & Hel).
    apply IH in H as (-> & Hsub & Hrest). simpl. rewrite addresses_app, Hel, Hrest.
    split; [set_solver|]. split; [set_solver | reflexivity].
Qed.

Lemma coverMap_shaped node field (D C : gset nat) val :
  forallb (λ entry, nodeOrNull (snd entry)) val = true →
  addresses (flat_map (λ entry, elementNodes (snd entry)) val) ⊆ D →
  coverMap node field D C val
  = Returns (C ∪ addresses (flat_map (λ entry, elementNodes (snd entry)) val)).
Proof.
  revert C. induction val as [|[k el] rest IH]; intros C Hshape Hsub; simpl.
  - rewrite addresses_nil. f_equal. set_solver.
  - simpl in Hshape, Hsub. apply andb_true_iff in Hshape as [Hel Hrest].
    rewrite addresses_app in Hsub.
    rewrite (coverElement_shaped _ _ _ _ _ _ Hel) by set_solver. simpl.
    rewrite IH by (auto; set_solver). rewrite addresses_app. f_equal. set_solver.
Qed.

Lemma coverField_Returns node (D C C' : gset nat) field :
  coverField node D C field = Returns C' →
  C' = C ∪ addresses (nodesOf (get node field))
  ∧ addresses (nodesOf (get node field)) ⊆ D ∧ shaped (get node field) = true.
Proof.
  unfold coverField. destruct (get node field); try discriminate; simpl.
  - intros [= <-]. rewrite addresses_nil. split; [set_solver|]. split; [set_solver|reflexivity].
  - destruct (decide (addr r ∈ D)) as [Hin|]; [|discriminate]. intros [= <-].
    rewrite addresses_singleton. split; [set_solver|]. split; [set_solver | reflexivity].
  - apply coverArray_Returns.
  - apply coverMap_Returns.
Qed.

Lemma coverField_shaped node (D C : gset nat) field :
  shaped (get node field) = true → addresses (nodesOf (get node field)) ⊆ D →
  coverField node D C field = Returns (C ∪ addresses (nodesOf (get node field))).
Proof.
  unfold coverField. destruct (get node field); try discriminate; simpl.
  - intros _ _. rewrite addresses_nil. f_equal. set_solver.
  - intros _. rewrite addresses_singleton. intros Hsub.
    destruct (decide (addr r ∈ D)) as [_|Hno]; [|set_solver]. f_equal. set_solver.
  - apply coverArray_shaped.
  - apply coverMap_shaped.
Qed.

Lemma coverFields_Returns node (D C C' : gset nat) fields :
  coverFields node D C fields = Returns C' →
  C' = C ∪ addresses (named node fields)
  ∧ addresses (named node fields) ⊆ D
  ∧ Forall (λ field, shaped (get node field) = true) fields.
Proof.
  revert C. induction fields as [|field rest IH]; intros C H; simpl in H.
  - injection H as <-. unfold named. simpl. rewrite addresses_nil.
    split; [set_solver|]. split; [set_solver | constructor].
  - apply bind_Returns in H as (C1 & H1 & H).
    apply coverField_Returns in H1 as (-> & Hsub1 & Hfield).
    apply IH in H as (-> & Hsub & Hrest). unfold named in *. simpl. rewrite addresses_app.
    split; [set_solver|]. split; [set_solver | constructor; assumption].
Qed.

Lemma coverFields_shaped node (D C : gset nat) fields :
  Forall (λ field, shaped (get node field) = true) fields →
  addresses (named node fields) ⊆ D →
  coverFields node D C fields = Returns (C ∪ addresses (named node fields)).
Proof.
  intros Hshape. revert C. induction Hshape as [|field rest Hfield _ IH]; intros C Hsub.
  - simpl. unfold named. simpl. rewrite addresses_nil. f_equal. set_solver.
  - unfold named in *. simpl in *. rewrite addresses_app in Hsub.
    rewrite (coverField_shaped _ _ _ _ Hfield) by set_solver. simpl.
    rewrite IH by set_solver. rewrite addresses_app. f_equal. set_solver.
Qed.

(** X14: [checkDirectChildren(node, ...fields)] returns exactly when each
    of the fields is undefined, a node, or an array or a map of nodes and
    nulls, and the nodes the fields name are the direct children of [node],
    no more and no fewer; an empty list of fields suits only a node without
    children. *)
Theorem checkDirectChildren_exact (node : ASTNode) (fields : list string) :
  (checkDirectChildren node fields = Returns ()
   ↔ Forall (λ field, shaped (get node field) = true) fields
     ∧ addresses (named node fields) = nodeSet (children node))
  ∧ (checkDirectChildren node [] = Returns () → children node = []).
Proof.
  assert (Hiff : ∀ fs, checkDirectChildren node fs = Returns ()
                 ↔ Forall (λ field, shaped (get node field) = true) fs
                   ∧ addresses (named node fs) = nodeSet (children node)).
  { intros fs. unfold checkDirectChildren. split.
    - intros H. apply bind_Returns in H as (C & HC & H).
      apply coverFields_Returns in HC as (-> & Hsub & Hshape).
      split; [exact Hshape|].
      destruct (Nat.ltb_spec (size (∅ ∪ addresses (named node fs)))
                             (size (nodeSet (children node)))) as [|Hsize]; [discriminate|].
      apply set_subseteq_size_eq; [exact Hsub|].
      replace (∅ ∪ addresses (named node fs)) with (addresses (named node fs)) in Hsize
        by set_solver.
      exact Hsize.
    - intros [Hshape Heq]. rewrite (coverFields_shaped _ _ _ _ Hshape) by (rewrite Heq; set_solver).
      simpl. rewrite Heq.
      replace (∅ ∪ nodeSet (children node)) with (nodeSet (children node)) by set_solver.
      rewrite Nat.ltb_irrefl. reflexivity. }
  split; [apply Hiff|].
  intros H. apply Hiff in H as [_ H]. unfold named, nodeSet in H. simpl in H.
  rewrite addresses_nil in H. destruct (children node) as [|c cs]; [reflexivity|].
  simpl in H. set_solver.
Qed.

(** *** [checkFieldAndVFieldMatch] *)

Lemma matchElements_complete node f vf idx val1 val2 :
  Forall2 matches val1 val2 → matchElements node f vf idx val1 val2 = Returns ().
Proof.
  intros H. revert idx. induction H as [|el1 el2 rest1 rest2 Hm _ IH];
    intros idx; simpl; [reflexivity|].
  destruct Hm as (i & r & H1 & H2 & Hid). subst. rewrite Z.eqb_refl. apply IH.
Qed.

Lemma matchElements_insane node f vf idx val1 val2 m :
  matchElements node f vf idx val1 val2 = Throws (InsaneASTError m) →
  ¬ Forall2 matches val1 val2.
Proof.
  revert idx val2. induction val1 as [|el1 rest1 IH]; intros idx [|el2 rest2] H;
    simpl in H; try discriminate.
  destruct el1; try discriminate. destruct el2; try discriminate.
  intros Hall. inversion Hall as [|? ? ? ? Hm Hrest]; subst.
  destruct Hm as (i & r' & H1 & H2 & Hid). injection H1 as <-. injection H2 as <-. subst n.
  rewrite Z.eqb_refl in H. eapply IH; eassumption.
Qed.

(** X23: [checkFieldAndVFieldMatch] returns exactly when the field holds
    a number and the view a node with that id, or the field holds an array
    and the view an array of the same length whose nodes have, place by
    place, the ids of the field; and when it throws a sanity error, the
    field is a number or an array and the view does not agree with it. *)
Theorem checkFieldAndVFieldMatch_exact (node : ASTNode) (field vField : string) :
  (checkFieldAndVFieldMatch node field vField = Returns ()
   ↔ numberOrArray (get node field) = true ∧ agrees node field vField)
  ∧ (∀ m, checkFieldAndVFieldMatch node field vField = Throws (InsaneASTError m) →
          numberOrArray (get node field) = true ∧ ¬ agrees node field vField).
Proof.
  split.
  - split.
    + intros H. split; [|apply checkFieldAndVFieldMatch_agrees, H].
      unfold checkFieldAndVFieldMatch in H. destruct (get node field); try discriminate;
        reflexivity.
    + unfold checkFieldAndVFieldMatch, agrees.
      destruct (get node field) as [| | |n| | |ids|]; try (intros [[=] _]; fail).
      * intros [_ (r & -> & <-)]. rewrite Z.eqb_refl. reflexivity.
      * intros [_ (views & -> & Hall)]. rewrite (Forall2_length _ _ _ Hall), Nat.eqb_refl.
        simpl. apply matchElements_complete, Hall.
  - intros m. unfold checkFieldAndVFieldMatch, agrees.
    destruct (get node field) as [| | |n| | |ids|]; try discriminate.
    + destruct (get node vField) as [| | | | |r| |]; try discriminate.
      destruct (n =? id r) eqn:Hid; [discriminate|]. intros _. split; [reflexivity|].
      intros (r' & [= <-] & Hr). apply Z.eqb_neq in Hid. congruence.
    + destruct (get node vField) as [| | | | | |views|]; try discriminate.
      destruct (Nat.eqb (length ids) (length views)) eqn:Hlen; simpl.
      * intros H. split; [reflexivity|]. intros (views' & [= <-] & Hall).
        eapply matchElements_insane; eassumption.
      * intros _. split; [reflexivity|]. intros (views' & [= <-] & Hall).
        apply Forall2_length in Hall. apply Nat.eqb_neq in Hlen. contradiction.
Qed.

(** *** [inCtx] and [checkVFieldCtx] on arrays of nodes *)

Lemma inCtx_nodes (rs : list NodeRef) (ctx : ASTContext) :
  inCtx (VArr (VNode <$> rs)) ctx = Returns (forallb (contains ctx) rs).
Proof.
  induction rs as [|r rs IH]; [reflexivity|].
  change (inCtx (VArr (VNode <$> r :: rs)) ctx)
    with (do b <- Returns (E := exn) (contains ctx r);
          if b then inCtx (VArr (VNode <$> rs)) ctx else Returns false).
  simpl. destruct (contains ctx r); [exact IH | reflexivity].
Qed.

(** X15: for a property that holds an array of nodes, [checkVFieldCtx]
    returns when all of them are in the context (so for the empty array);
    when one of them, whichever it is, is not, the error it throws names the
    index 0 and the first node of the array; the error is an [Error], not an
    [InsaneASTError]. *)
Theorem checkVFieldCtx_array_of_nodes (node : ASTNode) (prop : string) (ctx : ASTContext)
    (rs : list NodeRef) :
  get node prop = VArr (VNode <$> rs) →
  (forallb (contains ctx) rs = true → checkVFieldCtx node prop ctx = Returns ())
  ∧ (∀ first, forallb (contains ctx) rs = false → head rs = Some first →
       checkVFieldCtx node prop ctx
       = Throws (Error (PropertyNotInContext (self node) prop (AtIndex 0) first))).
Proof.
  intros Hget. unfold checkVFieldCtx. rewrite Hget. split.
  - intros Hall. apply forEach_Returns, Forall_forall. intros [idx el] Hin.
    apply list_elem_of_lookup in Hin as [i Hi]. rewrite list_lookup_imap in Hi.
    rewrite list_lookup_fmap in Hi. destruct (rs !! i) as [r|]; [|discriminate].
    injection Hi as <- <-. rewrite inCtx_nodes, Hall. reflexivity.
  - intros first Hnot Hhead. destruct rs as [|r rs]; [discriminate|].
    injection Hhead as ->. cbn [fmap list_fmap imap forEach].
    rewrite (inCtx_nodes (first :: rs)), Hnot. reflexivity.
Qed.

Lemma checkVFieldCtx_array_of_nodes_witness :
  checkVFieldCtx (mkNode contractRef None [("vBases", VArr [VNode contractRef; VNode docRef])] [])
                 "vBases" sampleCtx
  = Throws (Error (PropertyNotInContext contractRef "vBases" (AtIndex 0) contractRef)).
Proof.
  destruct (checkVFieldCtx_array_of_nodes
              (mkNode contractRef None [("vBases", VArr [VNode contractRef; VNode docRef])] [])
              "vBases" sampleCtx [contractRef; docRef] eq_refl) as [_ H].
  apply (H contractRef); reflexivity.
Defined.

(** *** What [checkSane] accepts *)

Lemma checkSane_checkNode (unit : ASTNode) (ctx : ASTContext) (node : ASTNode) :
  checkSane unit ctx = Returns () → node ∈ getChildren unit → checkNode ctx node = Returns ().
Proof.
  unfold checkSane. intros H Hin. apply forEach_Returns in H.
  rewrite Forall_forall in H. apply H, Hin.
Qed.

(** X16: in a tree that [checkSane] accepts, every reachable node is in
    the context and is an instance of one of the classes the checker
    knows. *)
Theorem checkSane_accepted_nodes (unit : ASTNode) (ctx : ASTContext) :
  checkSane unit ctx = Returns () →
  ∀ node, node ∈ getChildren unit →
          contains ctx (self node) = true ∧ ∀ className, type (self node) ≠ OtherNode className.
Proof.
  intros H node Hin. pose proof (checkSane_checkNode _ _ _ H Hin) as Hnode.
  split.
  - unfold checkNode in Hnode. destruct (contains ctx (self node)); [reflexivity|discriminate].
  - intros className Htype.
    assert (Hleaf : isLeaf (type (self node)) = false) by (rewrite Htype; reflexivity).
    pose proof (checkNode_checkByType _ _ Hnode Hleaf) as Hby.
    unfold checkByType in Hby. rewrite Htype in Hby. discriminate.
Qed.

Lemma checkSane_accepted_nodes_witness :
  Forall (λ node, contains sampleCtx (self node) = true) (getChildren plainUnit).
Proof.
  apply Forall_forall. intros node Hin.
  apply (checkSane_accepted_nodes plainUnit sampleCtx); [vm_compute; reflexivity | exact Hin].
Defined.

(** X17: the first node, in pre-order, that [checkSane] does not accept
    decides the outcome: if it is not in the context, [checkSane] throws the
    sanity error of the context and [isSane] returns false; if it is in the
    context, its children point back at it and its class is not one the
    checker knows, [checkSane] throws a plain error, which [isSane] throws
    again instead of returning false. *)
Theorem checkSane_first_offender (unit : ASTNode) (ctx : ASTContext)
    (before after : list ASTNode) (node : ASTNode) :
  getChildren unit = before ++ node :: after →
  Forall (λ earlier, checkNode ctx earlier = Returns ()) before →
  (contains ctx (self node) = false →
   checkSane unit ctx = Throws (InsaneASTError (DifferentContext (self node) (ctxId ctx)))
   ∧ isSane unit ctx = Returns false)
  ∧ (∀ className,
       contains ctx (self node) = true →
       Forall (λ child, parent child = Some (addr (self node))) (children node) →
       type (self node) = OtherNode className →
       checkSane unit ctx = Throws (Error (UnknownASTNodeType (self node)))
       ∧ isSane unit ctx = Throws (Error (UnknownASTNodeType (self node)))).
Proof.
  intros Hsplit Hbefore.
  assert (Hthrow : ∀ e, checkNode ctx node = Throws e → checkSane unit ctx = Throws e).
  { intros e He. unfold checkSane. rewrite Hsplit. apply forEach_app_Throws; assumption. }
  split.
  - intros Hctx.
    assert (H : checkSane unit ctx
                = Throws (InsaneASTError (DifferentContext (self node) (ctxId ctx)))).
    { apply Hthrow. unfold checkNode. rewrite Hctx. reflexivity. }
    split; [exact H|]. unfold isSane. rewrite H. reflexivity.
  - intros className Hctx Hparents Htype.
    assert (H : checkSane unit ctx = Throws (Error (UnknownASTNodeType (self node)))).
    { apply Hthrow. unfold checkNode. rewrite Hctx. simpl.
      assert (Hloop : forEach (checkParent node) (children node) = Returns ()).
      { apply forEach_Returns. eapply Forall_impl; [exact Hparents|].
        intros child Hchild. apply checkParent_right, Hchild. }
      rewrite Hloop. simpl. unfold checkByType. rewrite Htype. reflexivity. }
    split; [exact H|]. unfold isSane. rewrite H. reflexivity.
Qed.

Lemma checkSane_first_offender_witness :
  isSane plainUnit emptyCtx = Returns false
  ∧ isSane customUnit customCtx = Throws (Error (UnknownASTNodeType customRef)).
Proof.
  split.
  - destruct (checkSane_first_offender plainUnit emptyCtx [] (List.tl (getChildren plainUnit))
                plainUnit eq_refl) as [H _]; [constructor|].
    apply H. reflexivity.
  - destruct (checkSane_first_offender customUnit customCtx [customUnit] []
                (mkNode customRef (Some 0%nat) [] []) eq_refl) as [_ H].
    + constructor; [vm_compute; reflexivity | constructor].
    + apply (H "YulBlock"); [reflexivity | constructor | reflexivity].
Defined.

(** X18: in a tree that [checkSane] accepts, the scope of every contract
    is its parent: [vScope] is a node of the context, [scope] is the id of
    that node, and the parent of the contract is that very node. *)
Theorem checkSane_contract_scope_is_parent (unit : ASTNode) (ctx : ASTContext) :
  checkSane unit ctx = Returns () →
  ∀ node, node ∈ getChildren unit → type (self node) = ContractDefinition →
          ∃ r, get node "vScope" = VNode r ∧ get node "scope" = VNum (id r)
               ∧ parent node = Some (addr r) ∧ contains ctx r = true.
Proof.
  intros H node Hin Htype. pose proof (checkSane_checkNode _ _ _ H Hin) as Hnode.
  assert (Hleaf : isLeaf (type (self node)) = false) by (rewrite Htype; reflexivity).
  pose proof (checkNode_checkByType _ _ Hnode Hleaf) as Hby.
  unfold checkByType in Hby. rewrite Htype in Hby.
  apply bind_Returns in Hby as ([] & Hscope & Hby).
  apply bind_Returns in Hby as ([] & Hparent & _).
  unfold checkScope in Hscope. apply bind_Returns in Hscope as ([] & Hmatch & Hctx).
  unfold checkFieldAndVFieldMatch in Hmatch. unfold checkVFieldCtx in Hctx.
  destruct (get node "vScope") as [| | | | |r|views|]; try discriminate.
  exists r. split; [reflexivity|].
  destruct (get node "scope") as [| | |n| | | |]; try discriminate.
  destruct (n =? id r) eqn:Hid; [|discriminate]. apply Z.eqb_eq in Hid. subst n.
  split; [reflexivity|].
  destruct (contains ctx r); [|discriminate].
  unfold differsFromParent in Hparent. destruct (parent node) as [a|]; [|discriminate].
  destruct (Nat.eqb (addr r) a) eqn:Ha; [|discriminate].
  apply Nat.eqb_eq in Ha. subst a. auto.
Qed.

Lemma checkSane_contract_scope_is_parent_witness :
  ∃ r, get (contractNode (contractWith VUndefined [] (Some 0%nat)) []) "vScope" = VNode r
       ∧ get (contractNode (contractWith VUndefined [] (Some 0%nat)) []) "scope" = VNum (id r)
       ∧ parent (contractNode (contractWith VUndefined [] (Some 0%nat)) []) = Some (addr r)
       ∧ contains sampleCtx r = true.
Proof.
  apply (checkSane_contract_scope_is_parent plainUnit sampleCtx).
  - vm_compute. reflexivity.
  - apply list_elem_of_In. simpl. auto.
  - reflexivity.
Defined.

(** X19: in a tree that [checkSane] accepts, the exported symbols of every
    source unit resolve: each entry of [exportedSymbols] holds an id that the
    context knows, and [vExportedSymbols] holds, under the same name, the
    very node the context keeps under that id. *)
Theorem checkSane_exported_symbols_resolve (unit : ASTNode) (ctx : ASTContext) :
  checkSane unit ctx = Returns () →
  ∀ node, node ∈ getChildren unit → type (self node) = SourceUnit →
  ∃ exported, get node "exportedSymbols" = VMap exported
    ∧ ∀ name symId, (name, symId) ∈ exported →
        ∃ n r r' views, symId = VNum n ∧ locate ctx n = Some r
                        ∧ get node "vExportedSymbols" = VMap views
                        ∧ Json.assoc name views = Some (VNode r')
                        ∧ addr r = addr r'.
Proof.
  intros H node Hin Htype. pose proof (checkSane_checkNode _ _ _ H Hin) as Hnode.
  assert (Hleaf : isLeaf (type (self node)) = false) by (rewrite Htype; reflexivity).
  pose proof (checkNode_checkByType _ _ Hnode Hleaf) as Hby.
  unfold checkByType in Hby. rewrite Htype in Hby.
  apply bind_Returns in Hby as ([] & Hsyms & _).
  unfold checkExportedSymbols in Hsyms.
  destruct (get node "exportedSymbols") as [| | | | | | |exported]; try discriminate.
  exists exported. split; [reflexivity|]. intros name symId Hentry.
  apply forEach_Returns in Hsyms. rewrite Forall_forall in Hsyms.
  specialize (Hsyms _ Hentry). unfold checkExportedSymbol in Hsyms.
  destruct symId as [| | |n| | | |]; try discriminate.
  destruct (locate ctx n) as [r|] eqn:Hlocate; [|discriminate].
  destruct (get node "vExportedSymbols") as [| | | | | | |views]; try discriminate.
  destruct (Json.assoc name views) as [[| | | | |r'| |]|] eqn:Hview; try discriminate.
  destruct (sameNode r r') eqn:Hsame; [|discriminate].
  exists n, r, r', views. split; [reflexivity|]. split; [exact Hlocate|].
  split; [reflexivity|]. split; [exact Hview|]. apply Nat.eqb_eq, Hsame.
Qed.

Lemma checkSane_exported_symbols_resolve_witness :
  ∃ exported, get plainUnit "exportedSymbols" = VMap exported
    ∧ ∀ name symId, (name, symId) ∈ exported →
        ∃ n r r' views, symId = VNum n ∧ locate sampleCtx n = Some r
                        ∧ get plainUnit "vExportedSymbols" = VMap views
                        ∧ Json.assoc name views = Some (VNode r')
                        ∧ addr r = addr r'.
Proof.
  apply (checkSane_exported_symbols_resolve plainUnit sampleCtx).
  - vm_compute. reflexivity.
  - apply list_elem_of_In. simpl. auto.
  - reflexivity.
Defined.

End CheckerMoreFacts.

(** ** The contract node *)

Module ContractFacts.
Import AST Contract ContractProps.

Lemma sameNode_refl r : sameNode r r = true.
Proof. apply Nat.eqb_refl. Qed.

Lemma sameNode_addr a b : sameNode a b = true ↔ addr a = addr b.
Proof. apply Nat.eqb_eq. Qed.

(** The first element that satisfies [p] splits the list. *)
Lemma find_split {A} (p : A → bool) (l : list A) (x : A) :
  find p l = Some x →
  ∃ pre post, l = pre ++ x :: post ∧ Forall (λ y, p y = false) pre ∧ p x = true.
Proof.
  induction l as [|y l IH]; simpl; [discriminate|].
  destruct (p y) eqn:Hy.
  - intros [= ->]. exists [], l. split; [reflexivity|]. split; [constructor | exact Hy].
  - intros H. destruct (IH H) as (pre & post & -> & Hpre & Hx).
    exists (y :: pre), post. split; [reflexivity|]. split; [|exact Hx].
    constructor; assumption.
Qed.

Lemma find_none_filter {A} (p : A → bool) (l : list A) :
  find p l = None ↔ List.filter p l = [].
Proof.
  induction l as [|y l IH]; simpl; [tauto|].
  destruct (p y); [split; discriminate | exact IH].
Qed.

Lemma filter_none {A} (p : A → bool) (l : list A) :
  Forall (λ y, p y = false) l → List.filter p l = [].
Proof.
  induction 1 as [|y l Hy _ IH]; simpl; [reflexivity|]. rewrite Hy. exact IH.
Qed.

Lemma filter_negb_none {A} (p : A → bool) (l : list A) :
  List.filter p l = [] → List.filter (λ y, negb (p y)) l = l.
Proof.
  induction l as [|y l IH]; simpl; [reflexivity|].
  destruct (p y); [discriminate|]. simpl. intros H. rewrite (IH H). reflexivity.
Qed.

(** [indexOf] finds the place where the list was split, when no earlier
    element has the address of the node. *)
Lemma indexOf_split (x : NodeRef) (pre post : list NodeRef) :
  Forall (λ y, addr y ≠ addr x) pre → indexOf x (pre ++ x :: post) = Some (length pre).
Proof.
  induction 1 as [|y pre Hy _ IH]; simpl.
  - rewrite sameNode_refl. reflexivity.
  - destruct (sameNode y x) eqn:E; [apply sameNode_addr in E; contradiction|].
    rewrite IH. reflexivity.
Qed.

Lemma insert_split {A} (x y : A) (pre post : list A) :
  <[length pre := y]> (pre ++ x :: post) = pre ++ y :: post.
Proof.
  induction pre as [|z pre IH]; simpl; [reflexivity|]. f_equal. exact IH.
Qed.

Lemma delete_split {A} (x : A) (pre post : list A) :
  delete (length pre) (pre ++ x :: post) = pre ++ post.
Proof.
  induction pre as [|z pre IH]; simpl; [reflexivity|]. f_equal. exact IH.
Qed.

(** The first documentation child, when the children are coherent, is where
    [indexOf] looks for it, and it is the only one if there is at most one. *)
Lemma first_doc_split (l : list NodeRef) (o : NodeRef) :
  coherent l → find isStructuredDocumentation l = Some o →
  ∃ pre post, l = pre ++ o :: post
              ∧ Forall (λ y, isStructuredDocumentation y = false) pre
              ∧ isStructuredDocumentation o = true
              ∧ indexOf o l = Some (length pre).
Proof.
  intros Hco Hfind. destruct (find_split _ _ _ Hfind) as (pre & post & -> & Hpre & Ho).
  exists pre, post. split; [reflexivity|]. split; [exact Hpre|]. split; [exact Ho|].
  apply indexOf_split. rewrite Forall_forall in Hpre |- *. intros y Hy Haddr.
  assert (y = o).
  { apply Hco; [| |exact Haddr].
    - apply elem_of_app. left. exact Hy.
    - apply elem_of_app. right. apply elem_of_cons. left. reflexivity. }
  subst y. rewrite (Hpre o Hy) in Ho. discriminate.
Qed.

Lemma filter_split_single (pre post : list NodeRef) (o : NodeRef) :
  Forall (λ y, isStructuredDocumentation y = false) pre →
  isStructuredDocumentation o = true →
  (length (List.filter isStructuredDocumentation (pre ++ o :: post)) ≤ 1)%nat →
  List.filter isStructuredDocumentation post = [].
Proof.
  intros Hpre Ho. rewrite List.filter_app, (filter_none _ _ Hpre). simpl. rewrite Ho. simpl.
  destruct (List.filter isStructuredDocumentation post); [reflexivity | simpl; lia].
Qed.

Lemma documentation_cases c :
  documented c →
  (docString c = VUndefined ∧ find isStructuredDocumentation (ownChildren c) = None
   ∧ documentation c = VUndefined)
  ∨ (∃ o, docString c = VUndefined ∧ find isStructuredDocumentation (ownChildren c) = Some o
          ∧ documentation c = VNode o ∧ isStructuredDocumentation o = true)
  ∨ (∃ s, docString c = VStr s ∧ find isStructuredDocumentation (ownChildren c) = None
          ∧ documentation c = VStr s).
Proof.
  unfold documented, documentation, docChildren. intros [[Hs Hlen]|[[s Hs] Hnone]].
  - rewrite Hs. destruct (find isStructuredDocumentation (ownChildren c)) as [o|] eqn:Hf.
    + right. left. exists o. destruct (find_split _ _ _ Hf) as (? & ? & ? & ? & ?). auto.
    + left. auto.
  - right. right. exists s. rewrite Hs. apply find_none_filter in Hnone. auto.
Qed.


Lemma asSD_doc v : (∀ r, v ≠ VNode r) → asStructuredDocumentation v = None.
Proof. destruct v; try reflexivity. intros H. exfalso. eapply H. reflexivity. Qed.

Lemma set_documentation_plain (st : State) (v : value) :
  asStructuredDocumentation v = None →
  asStructuredDocumentation (documentation (contract st)) = None →
  set_documentation v st
  = (Returns (), mkState (withDocString (contract st) v) (parents st)).
Proof.
  intros Hv Hold. unfold set_documentation, andThen, reading. simpl.
  rewrite Hv, Hold. reflexivity.
Qed.

Lemma set_documentation_remove (st : State) (v : value) (o : NodeRef) pre post :
  asStructuredDocumentation v = None →
  asStructuredDocumentation (documentation (contract st)) = Some o →
  ownChildren (contract st) = pre ++ o :: post →
  indexOf o (ownChildren (contract st)) = Some (length pre) →
  set_documentation v st
  = (Returns (),
     mkState (withDocString (withOwnChildren (contract st) (pre ++ post)) v)
             (delete (addr o) (parents st))).
Proof.
  intros Hv Hold Hsplit Hidx. unfold set_documentation, andThen, reading. simpl.
  rewrite Hv, Hold. unfold removeChild. rewrite Hidx, Hsplit, delete_split. reflexivity.
Qed.

Lemma set_documentation_insert (st : State) (v : value) (r : NodeRef) :
  asStructuredDocumentation v = Some r →
  asStructuredDocumentation (documentation (contract st)) = None →
  set_documentation v st
  = (Returns (),
     mkState (withOwnChildren (withDocString (contract st) VUndefined)
                              (r :: ownChildren (contract st)))
             (<[addr r := addr (this (contract st))]> (parents st))).
Proof.
  intros Hv Hold. unfold set_documentation, andThen, reading. simpl.
  rewrite Hv, Hold. reflexivity.
Qed.

Lemma set_documentation_same (st : State) (v : value) (r o : NodeRef) :
  asStructuredDocumentation v = Some r →
  asStructuredDocumentation (documentation (contract st)) = Some o →
  sameNode r o = true →
  set_documentation v st
  = (Returns (), mkState (withDocString (contract st) VUndefined) (parents st)).
Proof.
  intros Hv Hold Hsame. unfold set_documentation, andThen, reading. simpl.
  rewrite Hv, Hold, Hsame. reflexivity.
Qed.

Lemma set_documentation_replace (st : State) (v : value) (r o : NodeRef) pre post :
  asStructuredDocumentation v = Some r →
  asStructuredDocumentation (documentation (contract st)) = Some o →
  sameNode r o = false →
  ownChildren (contract st) = pre ++ o :: post →
  indexOf o (ownChildren (contract st)) = Some (length pre) →
  set_documentation v st
  = (Returns (),
     mkState (withOwnChildren (withDocString (contract st) VUndefined) (pre ++ r :: post))
             (<[addr r := addr (this (contract st))]> (delete (addr o) (parents st)))).
Proof.
  intros Hv Hold Hsame Hsplit Hidx. unfold set_documentation, andThen, reading. simpl.
  rewrite Hv, Hold, Hsame. simpl. unfold replaceChild. simpl.
  rewrite Hidx, Hsplit, insert_split. reflexivity.
Qed.

Ltac conjuncts := split; [|split; [|split; [|split]]].

(** Setting a string or undefined. *)
Lemma set_documentation_text (st : State) (v : value) :
  documented (contract st) → parented st → coherent (ownChildren (contract st)) →
  v = VUndefined ∨ (∃ s, v = VStr s) →
  run (set_documentation v) st = Returns ()
  ∧ documentation (contract (exec (set_documentation v) st)) = v
  ∧ documented (contract (exec (set_documentation v) st))
  ∧ parented (exec (set_documentation v) st)
  ∧ docChildren (contract (exec (set_documentation v) st)) = []
  ∧ ownChildren (contract (exec (set_documentation v) st))
    = List.filter (λ x, negb (isStructuredDocumentation x)) (ownChildren (contract st)).
Proof.
  intros Hdoc Hpar Hkids Hv.
  assert (HvSD : asStructuredDocumentation v = None)
    by (destruct Hv as [->|[s ->]]; reflexivity).
  assert (Hafter : ∀ c, List.filter isStructuredDocumentation (ownChildren c) = [] →
                        documentation (withDocString c v) = v
                        ∧ documented (withDocString c v)).
  { intros c Hnone. unfold documentation, documented, docChildren. simpl.
    rewrite (proj2 (find_none_filter _ _) Hnone), Hnone.
    destruct Hv as [->|[s ->]]; (split; [reflexivity|]).
    - left. split; [reflexivity | simpl; lia].
    - right. split; [eexists|]; reflexivity. }
  destruct (documentation_cases _ Hdoc) as
    [(Hs & Hf & Hd)|[(o & Hs & Hf & Hd & Ho)|(s & Hs & Hf & Hd)]].
  - unfold run, exec. rewrite set_documentation_plain by (rewrite ?Hd; auto). simpl.
    apply find_none_filter in Hf as Hnone. destruct (Hafter _ Hnone) as [H1 H2].
    conjuncts; auto. split; [exact Hnone|]. symmetry. apply filter_negb_none, Hnone.
  - destruct (first_doc_split _ _ Hkids Hf) as (pre & post & Hsplit & Hpre & _ & Hidx).
    assert (Hpost : List.filter isStructuredDocumentation post = []).
    { destruct Hdoc as [[_ Hlen]|[[s Hs'] _]]; [|congruence].
      unfold docChildren in Hlen. rewrite Hsplit in Hlen.
      eapply filter_split_single; eauto. }
    assert (Hnone : List.filter isStructuredDocumentation (pre ++ post) = []).
    { rewrite List.filter_app, (filter_none _ _ Hpre), Hpost. reflexivity. }
    unfold run, exec.
    rewrite (set_documentation_remove st v o pre post)
      by (rewrite ?Hd; simpl; rewrite ?Ho; auto). simpl.
    destruct (Hafter (withOwnChildren (contract st) (pre ++ post)) Hnone) as [H1 H2].
    conjuncts; auto.
    + intros x Hx. simpl in Hx |- *.
      assert (Hxin : x ∈ ownChildren (contract st)).
      { rewrite Hsplit. apply elem_of_app in Hx as [Hx|Hx]; apply elem_of_app;
          [left | right; apply elem_of_cons; right]; exact Hx. }
      rewrite lookup_delete_ne; [apply Hpar, Hxin|].
      intros Haddr. assert (o = x).
      { apply Hkids; [|exact Hxin|exact Haddr].
        rewrite Hsplit. apply elem_of_app. right. apply elem_of_cons. left. reflexivity. }
      subst x. assert (Hin : In o (List.filter isStructuredDocumentation (pre ++ post))).
      { apply List.filter_In. split; [apply list_elem_of_In, Hx | exact Ho]. }
      rewrite Hnone in Hin. inversion Hin.
    + split; [exact Hnone|].
      rewrite Hsplit, !List.filter_app. simpl. rewrite Ho. simpl.
      rewrite !filter_negb_none by (auto using filter_none). reflexivity.
  - unfold run, exec. rewrite set_documentation_plain by (rewrite ?Hd; auto). simpl.
    apply find_none_filter in Hf as Hnone. destruct (Hafter _ Hnone) as [H1 H2].
    conjuncts; auto. split; [exact Hnone|]. symmetry. apply filter_negb_none, Hnone.
Qed.

(** Setting a [StructuredDocumentation] node. *)
Lemma set_documentation_node (st : State) (r : NodeRef) :
  documented (contract st) → parented st → coherent (r :: ownChildren (contract st)) →
  isStructuredDocumentation r = true →
  run (set_documentation (VNode r)) st = Returns ()
  ∧ documentation (contract (exec (set_documentation (VNode r)) st)) = VNode r
  ∧ documented (contract (exec (set_documentation (VNode r)) st))
  ∧ parented (exec (set_documentation (VNode r)) st)
  ∧ directChild (exec (set_documentation (VNode r)) st) r
  ∧ placed r (documentation (contract st)) (ownChildren (contract st))
           (ownChildren (contract (exec (set_documentation (VNode r)) st))).
Proof.
  intros Hdoc Hpar Hco Hr.
  assert (Hkids : coherent (ownChildren (contract st))).
  { intros a b Ha Hb. apply Hco; apply elem_of_cons; right; assumption. }
  assert (HvSD : asStructuredDocumentation (VNode r) = Some r) by (simpl; rewrite Hr; reflexivity).
  assert (Hinsert : asStructuredDocumentation (documentation (contract st)) = None →
                    List.filter isStructuredDocumentation (ownChildren (contract st)) = [] →
                    run (set_documentation (VNode r)) st = Returns ()
  ∧ documentation (contract (exec (set_documentation (VNode r)) st)) = VNode r
  ∧ documented (contract (exec (set_documentation (VNode r)) st))
  ∧ parented (exec (set_documentation (VNode r)) st)
  ∧ directChild (exec (set_documentation (VNode r)) st) r
  ∧ placed r (documentation (contract st)) (ownChildren (contract st))
           (ownChildren (contract (exec (set_documentation (VNode r)) st)))).
  { intros Hold Hnone. unfold run, exec.
    rewrite (set_documentation_insert st (VNode r) r HvSD Hold). simpl.
    unfold documented, docChildren, directChild, placed. simpl. rewrite Hold.
    unfold documentation. simpl. rewrite Hr, Hnone. conjuncts; auto.
    - intros x Hx. simpl in *. rewrite lookup_insert. case_decide; [reflexivity|].
      apply elem_of_cons in Hx as [->|Hx]; [congruence | apply Hpar, Hx].
    - split; [split|].
      + apply elem_of_cons. left. reflexivity.
      + apply lookup_insert_eq.
      + reflexivity. }
  destruct (documentation_cases _ Hdoc) as
    [(Hs & Hf & Hd)|[(o & Hs & Hf & Hd & Ho)|(s & Hs & Hf & Hd)]].
  - apply Hinsert; [rewrite Hd; reflexivity | apply find_none_filter, Hf].
  - assert (Hold : asStructuredDocumentation (documentation (contract st)) = Some o)
      by (rewrite Hd; simpl; rewrite Ho; reflexivity).
    destruct (first_doc_split _ _ Hkids Hf) as (pre & post & Hsplit & Hpre & _ & Hidx).
    assert (Hpost : List.filter isStructuredDocumentation post = []).
    { destruct Hdoc as [[_ Hlen]|[[s Hs'] _]]; [|congruence].
      unfold docChildren in Hlen. rewrite Hsplit in Hlen.
      eapply filter_split_single; eauto. }
    assert (Hoin : o ∈ ownChildren (contract st)).
    { rewrite Hsplit. apply elem_of_app. right. apply elem_of_cons. left. reflexivity. }
    destruct (sameNode r o) eqn:Hsame.
    + (* the node is the documentation already *)
      assert (r = o).
      { apply Hco; [apply elem_of_cons; left; reflexivity
                   | apply elem_of_cons; right; exact Hoin | apply sameNode_addr, Hsame]. }
      subst o. unfold run, exec.
      rewrite (set_documentation_same st (VNode r) r r HvSD Hold Hsame). simpl.
      assert (Hkeep : withDocString (contract st) VUndefined = contract st).
      { revert Hs. clear. destruct (contract st). simpl. intros ->. reflexivity. }
      rewrite Hkeep. unfold directChild, placed. rewrite Hold, Hsame. simpl.
      conjuncts; auto.
    + (* another node was the documentation *)
      unfold run, exec.
      rewrite (set_documentation_replace st (VNode r) r o pre post HvSD Hold Hsame Hsplit Hidx).
      simpl.
      assert (Honly : List.filter isStructuredDocumentation (pre ++ r :: post) = [r]).
      { rewrite List.filter_app, (filter_none _ _ Hpre). simpl. rewrite Hr, Hpost. reflexivity. }
      unfold documented, docChildren, directChild, placed. simpl.
      rewrite Hold, Hsame, Honly. unfold documentation. simpl.
      assert (Hfind : find isStructuredDocumentation (pre ++ r :: post) = Some r).
      { clear -Hpre Hr. induction Hpre as [|y pre Hy _ IH]; simpl; [rewrite Hr|rewrite Hy]; auto. }
      rewrite Hfind. conjuncts; auto.
      * intros x Hx. simpl in *. rewrite lookup_insert. case_decide; [reflexivity|].
        assert (Hxin : x ∈ pre ++ post).
        { apply elem_of_app in Hx as [Hx|Hx]; [apply elem_of_app; left; exact Hx|].
          apply elem_of_cons in Hx as [->|Hx]; [congruence | apply elem_of_app; right; exact Hx]. }
        assert (Hxkid : x ∈ ownChildren (contract st)).
        { rewrite Hsplit. apply elem_of_app in Hxin as [Hx'|Hx']; apply elem_of_app;
            [left | right; apply elem_of_cons; right]; exact Hx'. }
        rewrite lookup_delete_ne; [apply Hpar, Hxkid|].
        intros Haddr. assert (o = x) by (apply Hkids; auto). subst x.
        assert (Hin : In o (List.filter isStructuredDocumentation (pre ++ post))).
        { apply List.filter_In. split; [apply list_elem_of_In, Hxin | exact Ho]. }
        rewrite List.filter_app, (filter_none _ _ Hpre), Hpost in Hin. inversion Hin.
      * split; [split|].
        -- apply elem_of_app. right. apply elem_of_cons. left. reflexivity.
        -- apply lookup_insert_eq.
        -- exists pre, post. auto.
  - apply Hinsert; [rewrite Hd; reflexivity | apply find_none_filter, Hf].
Qed.

(** C9, as the specification words it, fails: a contract that holds two
    [StructuredDocumentation] children still reads the second after
    [documentation] is assigned undefined, and the second is still a child. *)
Lemma set_documentation_undefined_keeps_second :
  isDocumentation VUndefined
  ∧ documentation (contract (exec (set_documentation VUndefined) twiceDocumented))
    = VNode secondDoc
  ∧ secondDoc ∈ ownChildren (contract (exec (set_documentation VUndefined) twiceDocumented)).
Proof.
  split; [left; reflexivity|]. split; [reflexivity|].
  apply list_elem_of_In. simpl. auto.
Qed.

(** C9, amended: let the contract be in the representation its accessors
    keep (the private string is a string or undefined; at most one child is
    a [StructuredDocumentation], and none while the string is set; every
    child points back at the contract). Then for every value [v] that is a
    string, a [StructuredDocumentation] node or undefined, the assignment
    [documentation := v] returns, reading [documentation] afterwards returns
    [v], and the representation is kept. When [v] is a node it is a direct
    child afterwards: it took the place of the previous documentation node
    if there was another one, nothing moved if it was the documentation
    already, and it was inserted at the beginning otherwise. When [v] is a
    string or undefined no [StructuredDocumentation] child is left and the
    other children are as before. *)
Theorem set_documentation_then_get (st : State) (v : value) :
  documented (contract st) →
  parented st →
  isDocumentation v →
  coherent (refsOf v ++ ownChildren (contract st)) →
  run (set_documentation v) st = Returns ()
  ∧ documentation (contract (exec (set_documentation v) st)) = v
  ∧ (documented (contract (exec (set_documentation v) st))
     ∧ parented (exec (set_documentation v) st))
  ∧ (∀ r, v = VNode r →
          directChild (exec (set_documentation v) st) r
          ∧ placed r (documentation (contract st)) (ownChildren (contract st))
                   (ownChildren (contract (exec (set_documentation v) st))))
  ∧ ((∀ r, v ≠ VNode r) →
     docChildren (contract (exec (set_documentation v) st)) = []
     ∧ ownChildren (contract (exec (set_documentation v) st))
       = List.filter (λ x, negb (isStructuredDocumentation x)) (ownChildren (contract st))).
Proof.
  intros Hdoc Hpar Hv Hco.
  destruct Hv as [Hv|[[s Hv]|(r & Hv & Hr)]].
  - subst v. simpl in Hco.
    destruct (set_documentation_text st VUndefined Hdoc Hpar Hco)
      as (H1 & H2 & H3 & H4 & H5 & H6); [left; reflexivity|].
    conjuncts; auto. intros r [=].
  - subst v. simpl in Hco.
    destruct (set_documentation_text st (VStr s) Hdoc Hpar Hco)
      as (H1 & H2 & H3 & H4 & H5 & H6); [right; eexists; reflexivity|].
    conjuncts; auto. intros r [=].
  - subst v. simpl in Hco.
    destruct (set_documentation_node st r Hdoc Hpar Hco Hr)
      as (H1 & H2 & H3 & H4 & H5 & H6).
    conjuncts; auto.
    + intros r' [= <-]. auto.
    + intros Hno. exfalso. eapply Hno. reflexivity.
Qed.

Lemma set_documentation_then_get_witness :
  documentation (contract (exec (set_documentation (VNode firstDoc)) documentedContract))
  = VNode firstDoc
  ∧ directChild (exec (set_documentation (VNode firstDoc)) documentedContract) firstDoc.
Proof.
  destruct (set_documentation_then_get documentedContract (VNode firstDoc))
    as (_ & Hget & _ & Hnode & _).
  - right. split; [exists "Doc for C"|]; reflexivity.
  - intros x Hx. inversion Hx.
  - right. right. exists firstDoc. split; reflexivity.
  - intros a b Ha Hb _. apply list_elem_of_singleton in Ha, Hb. congruence.
  - split; [exact Hget|]. apply (Hnode firstDoc eq_refl).
Defined.

(** C8: assigning [vScope] validates before it writes. In a contract that
    has a context: if the node is not contained in that context the
    assignment throws and leaves the contract, its numeric scope included,
    and every parent pointer as they were; if the node is contained the
    assignment returns and the numeric scope is then the id of the node,
    nothing else having changed. *)
Theorem set_vScope_validates_first (st : State) (ctx : ASTContext) (u : NodeRef) :
  context (contract st) = Some ctx →
  (contains ctx u = false →
   set_vScope u st = (Throws (NotInCurrentContext u), st))
  ∧ (contains ctx u = true →
     run (set_vScope u) st = Returns ()
     ∧ scope (contract (exec (set_vScope u) st)) = id u
     ∧ exec (set_vScope u) st = mkState (withScope (contract st) (id u)) (parents st)).
Proof.
  intros Hctx. unfold set_vScope, andThen, reading, requiredContext, run, exec.
  rewrite Hctx. split; intros ->; simpl; auto.
Qed.

Lemma set_vScope_validates_first_witness :
  set_vScope stranger documentedContract
  = (Throws (NotInCurrentContext stranger), documentedContract)
  ∧ scope (contract (exec (set_vScope CheckerProps.unitRef) documentedContract)) = 2.
Proof.
  destruct (set_vScope_validates_first documentedContract CheckerProps.sampleCtx stranger
              eq_refl) as [Hout _].
  destruct (set_vScope_validates_first documentedContract CheckerProps.sampleCtx
              CheckerProps.unitRef eq_refl) as [_ Hin].
  split; [apply Hout; reflexivity|].
  destruct Hin as (_ & Hscope & _); [reflexivity | exact Hscope].
Defined.

Lemma includes_iff (l : list (option NodeRef)) (other : NodeRef) :
  includes l other = true ↔ ∃ r, Some r ∈ l ∧ addr r = addr other.
Proof.
  unfold includes. rewrite existsb_exists. split.
  - intros ([r|] & Hin & Hr); [|discriminate].
    exists r. split; [apply list_elem_of_In, Hin | apply sameNode_addr, Hr].
  - intros (r & Hin & Hr). exists (Some r).
    split; [apply list_elem_of_In, Hin | apply sameNode_addr, Hr].
Qed.

(** C10: in a contract that has a context, [isSubclassOf(other)] returns a
    boolean, and it returns true if and only if [other] is an element of
    [vLinearizedBaseContracts], the element-wise lookup in the context of
    the ids of [linearizedBaseContracts]. A contract that its context
    contains and whose own id is among its [linearizedBaseContracts] is a
    subclass of itself. *)
Theorem isSubclassOf_iff_linearized (c : ContractDefinition) (ctx : ASTContext)
    (other : NodeRef) :
  context c = Some ctx →
  vLinearizedBaseContracts c = Returns (locate ctx <$> linearizedBaseContracts c)
  ∧ (∃ b, isSubclassOf c other = Returns b)
  ∧ (isSubclassOf c other = Returns true
     ↔ ∃ r, Some r ∈ (locate ctx <$> linearizedBaseContracts c) ∧ addr r = addr other)
  ∧ (id (this c) ∈ linearizedBaseContracts c → contains ctx (this c) = true →
     isSubclassOf c (this c) = Returns true).
Proof.
  intros Hctx.
  assert (Hv : vLinearizedBaseContracts c = Returns (locate ctx <$> linearizedBaseContracts c)).
  { unfold vLinearizedBaseContracts, requiredContext. rewrite Hctx. reflexivity. }
  assert (Hsub : ∀ o, isSubclassOf c o
                      = Returns (includes (locate ctx <$> linearizedBaseContracts c) o)).
  { intros o. unfold isSubclassOf. rewrite Hv. reflexivity. }
  split; [exact Hv|]. split; [eexists; apply Hsub|]. split.
  - rewrite Hsub. rewrite <- includes_iff. split; [intros [= ->]; reflexivity | intros ->; reflexivity].
  - intros Hown Hreg. rewrite Hsub. f_equal. apply includes_iff.
    unfold contains in Hreg. destruct (locate ctx (id (this c))) as [r|] eqn:Hr; [|discriminate].
    exists r. split; [|apply sameNode_addr, Hreg].
    rewrite <- Hr. apply list_elem_of_fmap_2. exact Hown.
Qed.

Lemma isSubclassOf_iff_linearized_witness :
  isSubclassOf (contract documentedContract) CheckerProps.contractRef = Returns true.
Proof.
  destruct (isSubclassOf_iff_linearized (contract documentedContract) CheckerProps.sampleCtx
              CheckerProps.contractRef eq_refl) as (_ & _ & _ & H).
  apply H; [apply list_elem_of_In; simpl; auto | reflexivity].
Defined.

End ContractFacts.

(** ** The constructor and the accessors of a contract *)

Module ContractMoreFacts.
Import AST Contract ContractProps ContractMore ContractFacts.

Lemma appendChildren_adopts (l : list NodeRef) (st : State) :
  appendChildren l st
  = (Returns (),
     mkState (withOwnChildren (contract st) (ownChildren (contract st) ++ l))
             (adopted (addr (this (contract st))) l (parents st))).
Proof.
  revert st. induction l as [|x l IH]; intros st.
  - simpl. unfold skip. rewrite app_nil_r. destruct st as [[] ps]. reflexivity.
  - simpl. unfold andThen, appendChild. rewrite IH. simpl.
    rewrite <- app_assoc. reflexivity.
Qed.

Lemma adopted_lookup (owner : nat) (l : list NodeRef) (ps : gmap nat nat) (a : nat) :
  ps !! a = Some owner ∨ a ∈ addr <$> l → adopted owner l ps !! a = Some owner.
Proof.
  unfold adopted. revert ps. induction l as [|x l IH]; intros ps; simpl.
  - intros [H|H]; [exact H | inversion H].
  - intros H. apply IH. destruct (decide (addr x = a)) as [<-|Hne].
    + left. apply lookup_insert_eq.
    + rewrite lookup_insert_ne by exact Hne.
      destruct H as [H|H]; [left; exact H|]. right.
      apply elem_of_cons in H as [H|H]; [congruence | exact H].
Qed.

Lemma indexOf_elem (o : NodeRef) (l : list NodeRef) :
  o ∈ l → ∃ i, indexOf o l = Some i.
Proof.
  induction l as [|x l IH]; [intros H; inversion H|].
  intros H. simpl. destruct (sameNode x o) eqn:E; [eauto|].
  apply elem_of_cons in H as [->|H]; [rewrite sameNode_refl in E; discriminate|].
  destruct (IH H) as [i ->]. simpl. eauto.
Qed.

Lemma find_elem {A} (p : A → bool) (l : list A) (x : A) :
  find p l = Some x → x ∈ l.
Proof. intros H. apply find_some in H as [H _]. apply list_elem_of_In, H. Qed.

(** X20: the constructor of a contract, given children of which at most
    one is a [StructuredDocumentation] and a documentation argument of the
    declared type, returns a contract whose [documentation] is the argument
    and whose children all point back at it.  For a text or for no
    documentation the children are the given ones without the
    [StructuredDocumentation] among them, which the constructor removes; for
    a node, the node takes the place of that child, or is put in front of
    the children when there is none. *)
Theorem construct_documentation (this : NodeRef) (name : string) (scope : Z)
    (kind : ContractKind) (abstract fullyImplemented : bool)
    (linearizedBaseContracts usedErrors : list Z) (d : value) (children : list NodeRef)
    (nameLocation : option string) (ps : gmap nat nat) :
  isDocumentation d →
  coherent (refsOf d ++ children) →
  (length (List.filter isStructuredDocumentation children) ≤ 1)%nat →
  let made := construct this name scope kind abstract fullyImplemented
                        linearizedBaseContracts usedErrors d children nameLocation ps in
  fst made = Returns ()
  ∧ documentation (contract (snd made)) = d
  ∧ parented (snd made)
  ∧ (asStructuredDocumentation d = None →
     ownChildren (contract (snd made))
     = List.filter (λ x, negb (isStructuredDocumentation x)) children)
  ∧ (∀ r, d = VNode r →
          placed r (ofOption (find isStructuredDocumentation children)) children
                 (ownChildren (contract (snd made)))).
Proof.
  intros Hd Hco Hlen made. subst made. unfold construct, andThen.
  rewrite appendChildren_adopts. cbn [contract parents ownChildren Contract.this app].
  set (st := mkState _ _).
  assert (Hdoc : documented (contract st)).
  { left. split; [reflexivity | exact Hlen]. }
  assert (Hpar : parented st).
  { intros x Hx. apply adopted_lookup. right. apply list_elem_of_fmap_2, Hx. }
  assert (Hkids : coherent (ownChildren (contract st))).
  { intros a b Ha Hb. apply Hco; apply elem_of_app; right; assumption. }
  assert (Hold : documentation (contract st)
                 = ofOption (find isStructuredDocumentation children)).
  { unfold documentation. simpl. destruct (find _ children); reflexivity. }
  change (fst (set_documentation d st)) with (run (set_documentation d) st).
  change (snd (set_documentation d st)) with (exec (set_documentation d) st).
  destruct Hd as [->|[[s ->]|(r & -> & Hr)]].
  - destruct (set_documentation_text st VUndefined Hdoc Hpar Hkids) as (H1 & H2 & _ & H4 & _ & H6);
      [left; reflexivity|].
    split; [exact H1|]. split; [exact H2|]. split; [exact H4|].
    split; [intros _; exact H6 | discriminate].
  - destruct (set_documentation_text st (VStr s) Hdoc Hpar Hkids) as (H1 & H2 & _ & H4 & _ & H6);
      [right; eauto|].
    split; [exact H1|]. split; [exact H2|]. split; [exact H4|].
    split; [intros _; exact H6 | discriminate].
  - destruct (set_documentation_node st r Hdoc Hpar Hco Hr) as (H1 & H2 & _ & H4 & _ & H6).
    split; [exact H1|]. split; [exact H2|]. split; [exact H4|]. split.
    + simpl. rewrite Hr. discriminate.
    + intros r' [= <-]. rewrite <- Hold. exact H6.
Qed.

Lemma construct_documentation_witness :
  documentation (contract (snd (built CheckerProps.contractRef VUndefined [firstDoc] ∅)))
  = VUndefined
  ∧ ownChildren (contract (snd (built CheckerProps.contractRef VUndefined [firstDoc] ∅))) = [].
Proof.
  destruct (construct_documentation CheckerProps.contractRef "C" 2 KContract false true [1] []
              VUndefined [firstDoc] None ∅) as (_ & Hget & _ & Hkids & _).
  - left. reflexivity.
  - intros a b Ha Hb _. apply list_elem_of_singleton in Ha, Hb. congruence.
  - simpl. lia.
  - split; [exact Hget | apply Hkids; reflexivity].
Defined.

(** X21: after [vScope] was set to a node and the setter returned, the
    getter returns a node, and it is the very node that was set. *)
Theorem vScope_after_set_vScope (st : State) (u : NodeRef) :
  run (set_vScope u) st = Returns () →
  ∃ r, vScope (contract (exec (set_vScope u) st)) = Returns (Some r) ∧ addr r = addr u.
Proof.
  unfold set_vScope, andThen, reading, requiredContext, run, exec, vScope.
  destruct st as [c ps]. simpl.
  destruct (context c) as [ctx|] eqn:Hctx; simpl; [|discriminate].
  destruct (contains ctx u) eqn:Hin; simpl; [|discriminate].
  intros _. unfold requiredContext. simpl. rewrite Hctx. simpl. unfold contains in Hin.
  destruct (locate ctx (id u)) as [r|]; [|discriminate].
  exists r. split; [reflexivity|]. apply sameNode_addr, Hin.
Qed.

Lemma vScope_after_set_vScope_witness :
  ∃ r, vScope (contract (exec (set_vScope CheckerProps.unitRef) documentedContract))
       = Returns (Some r)
       ∧ addr r = addr CheckerProps.unitRef.
Proof.
  apply (vScope_after_set_vScope documentedContract CheckerProps.unitRef). reflexivity.
Defined.

(** X22: the setter of [documentation] never throws, whatever value it is
    given and whatever the children are, on a contract whose private
    documentation string is not a [StructuredDocumentation]; and it leaves
    the contract in such a state. *)
Theorem set_documentation_returns (st : State) (v : value) :
  asStructuredDocumentation (docString (contract st)) = None →
  run (set_documentation v) st = Returns ()
  ∧ asStructuredDocumentation (docString (contract (exec (set_documentation v) st))) = None.
Proof.
  intros Hstring.
  destruct (asStructuredDocumentation (documentation (contract st))) as [o|] eqn:Hold.
  - assert (Hchild : o ∈ ownChildren (contract st)).
    { unfold documentation in Hold.
      destruct (docString (contract st)) eqn:Hs; try congruence.
      destruct (find isStructuredDocumentation (ownChildren (contract st))) as [o'|] eqn:Hf;
        [|discriminate].
      simpl in Hold. destruct (isStructuredDocumentation o'); [|discriminate].
      injection Hold as <-. eapply find_elem, Hf. }
    destruct (indexOf_elem _ _ Hchild) as [i Hi].
    unfold run, exec, set_documentation, andThen, reading. simpl. rewrite Hold.
    destruct (asStructuredDocumentation v) as [r|] eqn:Hv; simpl.
    + destruct (sameNode r o); simpl; [split; reflexivity|].
      unfold replaceChild. simpl. rewrite Hi. simpl. split; reflexivity.
    + unfold removeChild. rewrite Hi. simpl. split; [reflexivity | exact Hv].
  - unfold run, exec, set_documentation, andThen, reading. simpl. rewrite Hold.
    destruct (asStructuredDocumentation v) as [r|] eqn:Hv; simpl.
    + split; reflexivity.
    + split; [reflexivity | exact Hv].
Qed.

Lemma set_documentation_returns_witness :
  run (set_documentation (VNum 7)) twiceDocumented = Returns ().
Proof.
  apply (set_documentation_returns twiceDocumented (VNum 7)). reflexivity.
Defined.

End ContractMoreFacts.

(** ** Copies *)

Module FactoryFacts.
Import AST Factory FactoryProps.

(** Induction on a tree with the hypothesis on every subtree. *)
Lemma tree_rect' (P : tree → Prop) :
  (∀ n s a r ts, Forall P ts → P (Tree n s a r ts)) → ∀ t, P t.
Proof.
  intros step. fix IH 1. intros [n s a r ts]. apply step.
  induction ts as [|t ts IHts]; constructor; [apply IH | exact IHts].
Qed.

Lemma walk_subtree (t child : tree) (n : NodeRef) :
  child ∈ subtrees t → n ∈ walk child → n ∈ walk t.
Proof.
  intros Hchild Hn. destruct t as [m s a r ts]. simpl in *.
  apply elem_of_cons. right. apply list_elem_of_In, in_flat_map.
  exists child. split; apply list_elem_of_In; assumption.
Qed.

Lemma walk_root (t : tree) : node t ∈ walk t.
Proof. destruct t. simpl. apply list_elem_of_here. Qed.

(** *** The map from old id to new node *)

Lemma imap_lookup_key (f : ASTNodeFactory) (order : list NodeRef) (k : nat) (n : NodeRef) :
  order !! k = Some n →
  (id n, recreated f k n) ∈ imap (λ k old, (id old, recreated f k old)) order.
Proof.
  intros Hk. apply list_elem_of_lookup. exists k. rewrite list_lookup_imap, Hk. reflexivity.
Qed.

Lemma imap_keys (f : ASTNodeFactory) (order : list NodeRef) :
  (imap (λ k old, (id old, recreated f k old)) order).*1 = id <$> order.
Proof.
  apply list_eq. intros k. rewrite !list_lookup_fmap, list_lookup_imap.
  destruct (order !! k); reflexivity.
Qed.

(** Every node of the order is recreated at its place in the order. *)
Lemma idMap_lookup (f : ASTNodeFactory) (order : list NodeRef) (n : NodeRef) :
  NoDup (id <$> order) → n ∈ order →
  ∃ k, order !! k = Some n ∧ idMap f order !! id n = Some (recreated f k n).
Proof.
  intros Hdup Hn. apply list_elem_of_lookup in Hn as [k Hk].
  exists k. split; [exact Hk|].
  unfold idMap. apply elem_of_list_to_map; [rewrite imap_keys; exact Hdup|].
  apply imap_lookup_key, Hk.
Qed.

Lemma idMap_lookup_None (f : ASTNodeFactory) (order : list NodeRef) (i : Z) :
  i ∉ id <$> order → idMap f order !! i = None.
Proof.
  intros Hno. unfold idMap. apply not_elem_of_list_to_map_1. rewrite imap_keys. exact Hno.
Qed.

Lemma newNode_at (f : ASTNodeFactory) (order : list NodeRef) (n : NodeRef) :
  NoDup (id <$> order) → n ∈ order →
  ∃ k, order !! k = Some n ∧ newNode (idMap f order) n = recreated f k n.
Proof.
  intros Hdup Hn. destruct (idMap_lookup f order n Hdup Hn) as (k & Hk & Hm).
  exists k. split; [exact Hk|]. unfold newNode. rewrite Hm. reflexivity.
Qed.

Lemma newNode_id (m : gmap Z NodeRef) (n : NodeRef) : id (newNode m n) = remap m (id n).
Proof. unfold newNode, remap. destruct (m !! id n); reflexivity. Qed.

Lemma newNode_renewed (f : ASTNodeFactory) (order : list NodeRef) (n : NodeRef) :
  NoDup (id <$> order) → n ∈ order →
  contains (context f) n = true →
  (∀ i, is_Some (locate (context f) i) → i ≤ lastId (context f)) →
  renewed f n (newNode (idMap f order) n).
Proof.
  intros Hdup Hn Hreg Hcount. destruct (newNode_at f order n Hdup Hn) as (k & Hk & ->).
  unfold renewed, recreated. simpl.
  assert (Hle : id n ≤ lastId (context f)).
  { apply Hcount. unfold contains in Hreg.
    destruct (locate (context f) (id n)); [eauto | discriminate]. }
  split; [reflexivity|]. split; [lia|]. split; [lia|]. split; [|lia].
  destruct (locate (context f) (lastId (context f) + 1 + Z.of_nat k)) eqn:Hl; [|reflexivity].
  assert (lastId (context f) + 1 + Z.of_nat k ≤ lastId (context f)) by (apply Hcount; eauto).
  lia.
Qed.

(** Two nodes of the order are recreated with two ids. *)
Lemma newNode_id_inj (f : ASTNodeFactory) (order : list NodeRef) (x y : NodeRef) :
  NoDup (id <$> order) → x ∈ order → y ∈ order →
  id (newNode (idMap f order) x) = id (newNode (idMap f order) y) → x = y.
Proof.
  intros Hdup Hx Hy. destruct (newNode_at f order x Hdup Hx) as (kx & Hkx & ->).
  destruct (newNode_at f order y Hdup Hy) as (ky & Hky & ->).
  unfold recreated. simpl. intros Hid. assert (kx = ky) by lia. subst ky. congruence.
Qed.

(** *** The rebuilt tree *)

Lemma walk_rebuild (m : gmap Z NodeRef) (t : tree) :
  walk (rebuild m t) = newNode m <$> walk t.
Proof.
  induction t as [n s a r ts IH] using tree_rect'. simpl. f_equal.
  induction IH as [|child ts Hhead _ IHts]; simpl; [reflexivity|].
  rewrite fmap_app, Hhead, IHts. reflexivity.
Qed.

Lemma rebuild_corresponds (P : NodeRef → NodeRef → Prop) (m : gmap Z NodeRef) (t : tree) :
  (∀ n, n ∈ walk t → P n (newNode m n)) → corresponds P t (rebuild m t).
Proof.
  induction t as [n s a r ts IH] using tree_rect'. intros HP.
  constructor; simpl.
  - apply HP. simpl. apply elem_of_cons. left. reflexivity.
  - assert (Hts : ∀ child, child ∈ ts → ∀ x, x ∈ walk child → P x (newNode m x)).
    { intros child Hchild x Hx. apply HP. eapply (walk_subtree (Tree n s a r ts)); eauto. }
    clear HP. induction IH as [|child ts Hhead _ IHts]; simpl; constructor.
    + apply Hhead. apply Hts. apply elem_of_cons. left. reflexivity.
    + apply IHts. intros c Hc. apply Hts. apply elem_of_cons. right. exact Hc.
Qed.

(** The render of the rebuilt tree is the render of the tree with its ids
    renamed as the references are. *)
Lemma rebuild_print (m : gmap Z NodeRef) (t : tree) :
  (∀ n, n ∈ walk t → type (newNode m n) = type n) →
  ∀ depth indent,
    print (rebuild m t) depth indent = print (renumbered (remap m) t) depth indent.
Proof.
  induction t as [n s a r ts IH] using tree_rect'. intros Htype depth indent.
  assert (Hts : ∀ child, child ∈ ts → ∀ x, x ∈ walk child → type (newNode m x) = type x).
  { intros child Hchild x Hx. apply Htype. eapply (walk_subtree (Tree n s a r ts)); eauto. }
  assert (Hbelow : ∀ d ind,
             List.map (λ child, print child d ind) (List.map (rebuild m) ts)
             = List.map (λ child, print child d ind) (List.map (renumbered (remap m)) ts)).
  { intros d ind. clear Htype. induction IH as [|child ts Hhead _ IHts]; simpl; [reflexivity|].
    f_equal.
    - apply Hhead. apply Hts. apply elem_of_cons. left. reflexivity.
    - apply IHts. intros c Hc. apply Hts. apply elem_of_cons. right. exact Hc. }
  cbn [print rebuild renumbered node src attributes references subtrees type id].
  rewrite Htype by (simpl; apply elem_of_cons; left; reflexivity).
  rewrite newNode_id.
  destruct depth as [|d]; [reflexivity|]. rewrite Hbelow. reflexivity.
Qed.

(** *** The context after the copy *)

Lemma registerAll_lookup (news : list NodeRef) (ctx : ASTContext) (c : NodeRef) :
  NoDup (id <$> news) → c ∈ news → locate (registerAll news ctx) (id c) = Some c.
Proof.
  unfold locate, registerAll. simpl. induction news as [|x news IH]; simpl.
  - intros _ H. inversion H.
  - intros [Hx Hdup]%NoDup_cons Hc. apply elem_of_cons in Hc as [->|Hc].
    + apply lookup_insert_eq.
    + rewrite lookup_insert_ne; [apply IH; assumption|].
      intros Heq. apply Hx. rewrite Heq. apply list_elem_of_fmap_2, Hc.
Qed.

Lemma registerAll_lookup_ne (news : list NodeRef) (ctx : ASTContext) (i : Z) :
  i ∉ id <$> news → locate (registerAll news ctx) i = locate ctx i.
Proof.
  unfold locate, registerAll. simpl. induction news as [|x news IH]; simpl; [reflexivity|].
  intros [Hne Hno]%not_elem_of_cons. rewrite lookup_insert_ne by congruence. apply IH, Hno.
Qed.

Lemma registerAll_is_Some (news : list NodeRef) (ctx : ASTContext) (i : Z) :
  is_Some (locate (registerAll news ctx) i) → i ∈ id <$> news ∨ is_Some (locate ctx i).
Proof.
  destruct (decide (i ∈ id <$> news)) as [Hin|Hno]; [auto|].
  rewrite (registerAll_lookup_ne _ _ _ Hno). auto.
Qed.

Lemma registerAll_contains (news : list NodeRef) (ctx : ASTContext) (c : NodeRef) :
  NoDup (id <$> news) → c ∈ news → contains (registerAll news ctx) c = true.
Proof.
  intros Hdup Hc. unfold contains. rewrite (registerAll_lookup _ _ _ Hdup Hc).
  apply Nat.eqb_refl.
Qed.

(** The two orders of recreation name the same nodes. *)
Lemma childrenFirst_walk (t : tree) : childrenFirst t ≡ₚ walk t.
Proof.
  induction t as [n s a r ts IH] using tree_rect'. simpl.
  rewrite <- Permutation_cons_append. constructor.
  induction IH as [|child ts Hhead _ IHts]; simpl; [reflexivity|].
  rewrite Hhead, IHts. reflexivity.
Qed.

(** The unit test of [copy] on an enum: the copies of the value and of the
    definition carry the ids 3 and 4 when the values are recreated before
    the definition; in the pre-order of the specification they carry 4 and 3. *)
Example copy_enum_ids :
  walk (fst (copyWith childrenFirst enumFactory enumTree))
  = [mkRef 3 4 EnumDefinition; mkRef 2 3 EnumValue]
  ∧ walk (fst (copy enumFactory enumTree))
    = [mkRef 2 3 EnumDefinition; mkRef 3 4 EnumValue].
Proof. split; vm_compute; reflexivity. Qed.

Lemma enumTree_owned : owned enumFactory enumTree.
Proof.
  split.
  - repeat constructor.
  - simpl. apply NoDup_cons. split; [|apply NoDup_singleton].
    intros H. apply list_elem_of_singleton in H. discriminate.
  - repeat constructor.
  - intros i [n Hi]. unfold locate, enumFactory in Hi. simpl in Hi.
    destruct (decide (i = 1)) as [->|]; [simpl; lia|].
    destruct (decide (i = 2)) as [->|]; [simpl; lia|].
    rewrite !lookup_insert_ne in Hi by congruence. rewrite lookup_empty in Hi. discriminate.
Qed.

Lemma contractTree_owned : owned contractFactory contractTree.
Proof.
  split.
  - repeat constructor.
  - simpl. apply NoDup_cons. split; [|apply NoDup_singleton].
    intros H. apply list_elem_of_singleton in H. discriminate.
  - repeat constructor.
  - intros i [n Hi]. unfold locate, contractFactory in Hi. simpl in Hi.
    destruct (decide (i = 1)) as [->|]; [simpl; lia|].
    destruct (decide (i = 2)) as [->|]; [simpl; lia|].
    destruct (decide (i = 3)) as [->|]; [simpl; lia|].
    rewrite !lookup_insert_ne in Hi by congruence. rewrite lookup_empty in Hi. discriminate.
Qed.




End FactoryFacts.

(** ** Type nodes *)

Module TypesFacts.
Import AST Types TypesProps.

Lemma specializeType_general (ty : TypeNode) (loc : DataLocation) :
  general ty = true → ∃ t, specializeType ty loc = Returns t.
Proof.
  revert loc. induction ty as [p|el IHel size| | |sz|nm args rets vis mut|nb sg|k IHk v IHv|to IHto l| |els|nm def|cn];
    intros loc Hg; simpl in *; try discriminate; eauto.
  - destruct (IHel loc Hg) as [t ->]. simpl. eauto.
  - apply andb_prop in Hg as [Hk Hv].
    destruct (IHk Memory Hk) as [k' ->], (IHv Storage Hv) as [v' ->]. simpl. eauto.
  - destruct def; [|discriminate]. destruct (instanceof _ _); eauto.
Qed.

Lemma specializeType_returns_general (ty : TypeNode) (loc : DataLocation) (t : TypeNode) :
  specializeType ty loc = Returns t → general ty = true.
Proof.
  revert loc t. induction ty as [p|el IHel size| | |sz|nm args rets vis mut|nb sg|k IHk v IHv|to IHto l| |els|nm def|cn];
    intros loc t H; simpl in *; try discriminate; auto.
  - destruct (specializeType el loc) eqn:E; [|discriminate]. eauto.
  - destruct (specializeType k Memory) eqn:E1; [|discriminate].
    destruct (specializeType v Storage) eqn:E2; [|discriminate].
    simpl. rewrite (IHk _ _ E1), (IHv _ _ E2). reflexivity.
  - destruct def; [reflexivity | discriminate].
Qed.

(** X1: [generalizeType] undoes [specializeType]. Whenever
    [specializeType(type, loc)] returns, [generalizeType] of the result gives
    back [type] itself, with the location [loc] for bytes, strings, arrays
    and structs, storage for a mapping whatever [loc] was, and no location
    for a value type. *)
Theorem generalizeType_specializeType (ty : TypeNode) (loc : DataLocation) (t : TypeNode) :
  specializeType ty loc = Returns t →
  generalizeType t = (ty, locationOf ty loc).
Proof.
  revert loc t. induction ty as [p|el IHel size| | |sz|nm args rets vis mut|nb sg|k IHk v IHv|to IHto l| |els|nm def|cn];
    intros loc t H; simpl in H; try discriminate;
    try (injection H as <-; reflexivity).
  - destruct (specializeType el loc) as [el'|] eqn:E; [|discriminate].
    injection H as <-. simpl. rewrite (IHel _ _ E). reflexivity.
  - destruct (specializeType k Memory) as [k'|] eqn:E1; [|discriminate].
    destruct (specializeType v Storage) as [v'|] eqn:E2; [|discriminate].
    injection H as <-. simpl. rewrite (IHk _ _ E1), (IHv _ _ E2). reflexivity.
  - destruct def as [d|]; [|discriminate]. simpl.
    destruct (instanceof StructDefinition (AST.type d)); injection H as <-; reflexivity.
Qed.

Lemma generalizeType_specializeType_witness :
  generalizeType
    (PointerType
       (MappingType (AddressType false)
          (PointerType
             (ArrayType (PointerType (UserDefinedType "Point" (Some pointStruct)) Storage) None)
             Storage))
       Storage)
  = (balances, Some Storage).
Proof.
  apply (generalizeType_specializeType balances Memory). reflexivity.
Defined.

(** X2: [specializeType] returns exactly on the general type patterns: it
    throws if and only if, along array elements and mapping keys and values,
    it meets a pointer, a tuple or a user-defined type without definition;
    what lies inside function types, tuples of arguments and the like is
    never looked at. *)
Theorem specializeType_returns_iff_general (ty : TypeNode) (loc : DataLocation) :
  (∃ t, specializeType ty loc = Returns t) ↔ general ty = true.
Proof.
  split.
  - intros [t H]. eapply specializeType_returns_general, H.
  - apply specializeType_general.
Qed.

(** X3: [generalizeType] removes every pointer and is idempotent: the type
    it returns holds no pointer, neither itself nor along array elements and
    mapping keys and values; a type without such pointers is returned as it
    is; so generalizing the result again changes nothing. *)
Theorem generalizeType_idempotent (ty : TypeNode) :
  pointerFree (fst (generalizeType ty)) = true
  ∧ (pointerFree ty = true → fst (generalizeType ty) = ty)
  ∧ fst (generalizeType (fst (generalizeType ty))) = fst (generalizeType ty).
Proof.
  assert (Hfree : ∀ t, pointerFree (fst (generalizeType t)) = true).
  { intros t. induction t as [p|el IHel size| | |sz|nm args rets vis mut|nb sg|k IHk v IHv|to IHto l| |els|nm def|cn];
      simpl; try reflexivity; try assumption.
    rewrite IHk, IHv. reflexivity. }
  assert (Hfix : ∀ t, pointerFree t = true → fst (generalizeType t) = t).
  { intros t. induction t as [p|el IHel size| | |sz|nm args rets vis mut|nb sg|k IHk v IHv|to IHto l| |els|nm def|cn];
      simpl; intros H; try reflexivity; try discriminate.
    - rewrite (IHel H). reflexivity.
    - apply andb_prop in H as [Hk Hv]. rewrite (IHk Hk), (IHv Hv). reflexivity. }
  split; [apply Hfree|]. split; [apply Hfix|]. apply Hfix, Hfree.
Qed.

Lemma enumSizes_find (len : N) :
  (len ≤ 2 ^ 32)%N →
  ∃ n, find (λ n, len <=? 2 ^ n)%N enumSizes = Some n
       ∧ n ∈ enumSizes ∧ (len ≤ 2 ^ n)%N ∧ (n = 8 ∨ 2 ^ (n - 8) < len)%N.
Proof.
  intros Hlen. unfold enumSizes. simpl.
  destruct (N.leb_spec len (2 ^ 8)) as [H8|H8].
  { exists 8%N. split; [reflexivity|]. split; [apply list_elem_of_In; simpl; auto|]. auto. }
  destruct (N.leb_spec len (2 ^ 16)) as [H16|H16].
  { exists 16%N. split; [reflexivity|]. split; [apply list_elem_of_In; simpl; auto|].
    split; [exact H16 | right; exact H8]. }
  destruct (N.leb_spec len (2 ^ 24)) as [H24|H24].
  { exists 24%N. split; [reflexivity|]. split; [apply list_elem_of_In; simpl; auto|].
    split; [exact H24 | right; exact H16]. }
  destruct (N.leb_spec len (2 ^ 32)) as [H32|H32].
  { exists 32%N. split; [reflexivity|]. split; [apply list_elem_of_In; simpl; auto 6|].
    split; [exact H32 | right; exact H24]. }
  lia.
Qed.

(** X4: for an enum of at most [2 ** 32] members, which every array of
    children is, [enumToIntType] returns the unsigned integer type of the
    least size among 8, 16, 24 and 32 bits whose range holds the number of
    members; it throws only beyond [2 ** 32] members. *)
Theorem enumToIntType_least_size (decl : ASTNode) :
  ((N.of_nat (length (children decl)) ≤ 2 ^ 32)%N →
   ∃ n, enumToIntType decl = Returns (IntType n false)
        ∧ n ∈ enumSizes
        ∧ (N.of_nat (length (children decl)) ≤ 2 ^ n)%N
        ∧ (n = 8 ∨ 2 ^ (n - 8) < N.of_nat (length (children decl)))%N)
  ∧ ((2 ^ 32 < N.of_nat (length (children decl)))%N →
     enumToIntType decl = Throws (MemberCountExceeds (length (children decl)))).
Proof.
  unfold enumToIntType. split.
  - intros Hlen. destruct (enumSizes_find _ Hlen) as (n & Hfind & Hin & Hle & Hmin).
    exists n. rewrite Hfind. auto.
  - intros Hlen. unfold enumSizes. simpl.
    assert (H8 : (2 ^ 8 < 2 ^ 32)%N) by reflexivity.
    assert (H16 : (2 ^ 16 < 2 ^ 32)%N) by reflexivity.
    assert (H24 : (2 ^ 24 < 2 ^ 32)%N) by reflexivity.
    rewrite !(proj2 (N.leb_gt _ _)) by lia. reflexivity.
Qed.

End TypesFacts.

(** ** Path remappings *)

Module RemappingFacts.
Import Remapping.

Lemma upTo_app (c : codeUnit) (run rest : list codeUnit) :
  c ∉ run → upTo c (run ++ c :: rest) = Some (run, rest).
Proof.
  induction run as [|x run IH]; simpl; intros Hno.
  - rewrite N.eqb_refl. reflexivity.
  - apply not_elem_of_cons in Hno as [Hne Hno].
    destruct (N.eqb_spec x c) as [->|_]; [congruence|]. rewrite (IH Hno). reflexivity.
Qed.

Lemma upTo_Some (c : codeUnit) (s run rest : list codeUnit) :
  upTo c s = Some (run, rest) → s = run ++ c :: rest ∧ c ∉ run.
Proof.
  revert run. induction s as [|x s IH]; simpl; intros run; [discriminate|].
  destruct (N.eqb_spec x c) as [->|Hne].
  - intros [= <- <-]. split; [reflexivity | apply not_elem_of_nil].
  - destruct (upTo c s) as [[run' rest']|]; [|discriminate].
    intros [= <- <-]. destruct (IH run' eq_refl) as [-> Hno].
    split; [reflexivity|]. apply not_elem_of_cons. split; [congruence | exact Hno].
Qed.

Lemma upTo_None (c : codeUnit) (s : list codeUnit) :
  c ∉ s → upTo c s = None.
Proof.
  induction s as [|x s IH]; simpl; [reflexivity|].
  intros [Hne Hno]%not_elem_of_cons.
  destruct (N.eqb_spec x c) as [->|_]; [congruence|]. rewrite (IH Hno). reflexivity.
Qed.

Lemma prefixAndTarget_app (prefix target : list codeUnit) :
  equals ∉ prefix → toEnd target = true →
  prefixAndTarget (prefix ++ equals :: target) = Some (prefix, target).
Proof.
  intros Hp Ht. unfold prefixAndTarget. rewrite (upTo_app _ _ _ Hp), Ht. reflexivity.
Qed.

Lemma prefixAndTarget_Some (s prefix target : list codeUnit) :
  prefixAndTarget s = Some (prefix, target) →
  s = prefix ++ equals :: target ∧ (equals ∉ prefix) ∧ toEnd target = true.
Proof.
  unfold prefixAndTarget. destruct (upTo equals s) as [[p t]|] eqn:E; [|discriminate].
  destruct (toEnd t) eqn:Ht; [|discriminate]. intros [= <- <-].
  destruct (upTo_Some _ _ _ _ E). auto.
Qed.

Lemma prefixAndTarget_None (s : list codeUnit) :
  equals ∉ s → prefixAndTarget s = None.
Proof. intros H. unfold prefixAndTarget. rewrite (upTo_None _ _ H). reflexivity. Qed.

(** A unit that a given string does not hold, by evaluation. *)
Ltac absent := apply (bool_decide_unpack _); vm_compute; exact I.

(** X10: a remapping written as [context:prefix=target] is read back as
    its three parts, whenever the context holds no colon, the prefix no
    equals sign, and the target is not empty and holds no line terminator;
    the prefix may hold colons and the target colons and equals signs. *)
Theorem parseEntry_with_context (context prefix target : list codeUnit) :
  colon ∉ context → equals ∉ prefix → toEnd target = true →
  parseEntry (context ++ colon :: (prefix ++ equals :: target))
  = Returns (context, prefix, target).
Proof.
  intros Hc Hp Ht. unfold parseEntry, rxRemapping.
  rewrite (upTo_app _ _ _ Hc), (prefixAndTarget_app _ _ Hp Ht). reflexivity.
Qed.

Lemma parseEntry_with_context_witness :
  parseEntry (codes "src:@oz/=node_modules/@oz/")
  = Returns (codes "src", codes "@oz/", codes "node_modules/@oz/").
Proof.
  apply (parseEntry_with_context (codes "src") (codes "@oz/") (codes "node_modules/@oz/")).
  - absent.
  - absent.
  - reflexivity.
Defined.

(** X11: a remapping written as [prefix=target], without context, is read
    back with the empty context when the prefix holds neither colon nor
    equals sign and the target (not empty, without line terminator) holds no
    colon, or no equals sign. *)
Theorem parseEntry_without_context (prefix target : list codeUnit) :
  colon ∉ prefix → equals ∉ prefix → toEnd target = true →
  colon ∉ target ∨ equals ∉ target →
  parseEntry (prefix ++ equals :: target) = Returns ([], prefix, target).
Proof.
  intros Hc Hp Ht Htarget. unfold parseEntry, rxRemapping.
  rewrite (prefixAndTarget_app _ _ Hp Ht).
  destruct (upTo colon (prefix ++ equals :: target)) as [[context rest]|] eqn:E;
    [|reflexivity].
  enough (prefixAndTarget rest = None) as -> by reflexivity.
  apply upTo_Some in E as [Heq Hno].
  assert (Hin : colon ∈ target).
  { assert (H : colon ∈ prefix ++ equals :: target).
    { rewrite Heq. apply elem_of_app. right. apply elem_of_cons. left. reflexivity. }
    apply elem_of_app in H as [H|H]; [contradiction|].
    apply elem_of_cons in H as [H|H]; [discriminate | exact H]. }
  destruct Htarget as [Hnc|Hne]; [contradiction|].
  apply prefixAndTarget_None. intros Hrest. apply Hne.
  (* [rest] is a suffix of the target *)
  assert (Hsplit : ∃ a, target = a ++ colon :: rest).
  { clear -Heq Hno Hc.
    revert context Heq Hno. induction prefix as [|x prefix IH]; simpl; intros context Heq Hno.
    - destruct context as [|y context]; [discriminate|].
      injection Heq as <- Heq. exists context. exact Heq.
    - destruct context as [|y context].
      + injection Heq as -> _. exfalso. apply Hc. apply elem_of_cons. left. reflexivity.
      + injection Heq as <- Heq. apply not_elem_of_cons in Hc as [_ Hc].
        apply not_elem_of_cons in Hno as [_ Hno]. eapply IH; eauto. }
  destruct Hsplit as [a ->]. apply elem_of_app. right. apply elem_of_cons. right. exact Hrest.
Qed.

Lemma parseEntry_without_context_witness :
  parseEntry (codes "@oz/=https://example.org/oz/")
  = Returns ([], codes "@oz/", codes "https://example.org/oz/").
Proof.
  apply (parseEntry_without_context (codes "@oz/") (codes "https://example.org/oz/")).
  - absent.
  - absent.
  - reflexivity.
  - right. absent.
Defined.

(** X12: whatever [parseEntry] returns spells the entry: the entry is
    [context:prefix=target], or [prefix=target] when the context returned
    is empty; the context holds no colon, the prefix no equals sign, and the
    target is not empty and holds no line terminator. *)
Theorem parseEntry_spells_entry (entry context prefix target : list codeUnit) :
  parseEntry entry = Returns (context, prefix, target) →
  (entry = context ++ colon :: (prefix ++ equals :: target)
   ∨ (context = [] ∧ entry = prefix ++ equals :: target))
  ∧ (colon ∉ context) ∧ (equals ∉ prefix) ∧ toEnd target = true.
Proof.
  unfold parseEntry, rxRemapping. intros H.
  assert (Hwithout : ∀ p t, prefixAndTarget entry = Some (p, t) →
                            Returns (E := exn) (default [] None, p, t)
                            = Returns (context, prefix, target) →
            (entry = context ++ colon :: (prefix ++ equals :: target)
             ∨ (context = [] ∧ entry = prefix ++ equals :: target))
            ∧ (colon ∉ context) ∧ (equals ∉ prefix) ∧ toEnd target = true).
  { intros p t Hpt [= <- <- <-]. apply prefixAndTarget_Some in Hpt as (-> & Hp & Ht).
    split; [right; auto|]. split; [apply not_elem_of_nil | auto]. }
  destruct (upTo colon entry) as [[c rest]|] eqn:Ec.
  - destruct (prefixAndTarget rest) as [[p t]|] eqn:Ert.
    + injection H as <- <- <-. apply upTo_Some in Ec as [-> Hc].
      apply prefixAndTarget_Some in Ert as (-> & Hp & Ht). auto.
    + destruct (prefixAndTarget entry) as [[p t]|] eqn:Ept; [|discriminate]. eauto.
  - destruct (prefixAndTarget entry) as [[p t]|] eqn:Ept; [|discriminate]. eauto.
Qed.

Lemma parseEntry_spells_entry_witness :
  codes "a=b:c=d" = codes "a=b" ++ colon :: (codes "c" ++ equals :: codes "d")
  ∨ (codes "a=b" = [] ∧ codes "a=b:c=d" = codes "c" ++ equals :: codes "d").
Proof.
  apply (parseEntry_spells_entry (codes "a=b:c=d") (codes "a=b") (codes "c") (codes "d")).
  reflexivity.
Defined.

Lemma parseEntry_no_equals (entry : list codeUnit) :
  equals ∉ entry → parseEntry entry = Throws (InvalidRemappingEntry entry).
Proof.
  intros Hno. unfold parseEntry, rxRemapping. rewrite (prefixAndTarget_None _ Hno).
  destruct (upTo colon entry) as [[context rest]|] eqn:E; [|reflexivity].
  apply upTo_Some in E as [Heq _].
  rewrite prefixAndTarget_None; [reflexivity|].
  intros H. apply Hno. rewrite Heq. apply elem_of_app. right. apply elem_of_cons. right. exact H.
Qed.

Lemma parsePathRemapping_all (entries : list (list codeUnit)) (parsed : list remapping) :
  Forall2 (λ entry p, parseEntry entry = Returns p) entries parsed →
  parsePathRemapping entries = Returns parsed.
Proof.
  induction 1 as [|e p es ps He _ IH]; simpl; [reflexivity|].
  rewrite He. simpl. rewrite IH. reflexivity.
Qed.

Lemma parsePathRemapping_first (pre post : list (list codeUnit)) (bad : list codeUnit) :
  Forall (λ entry, ∃ p, parseEntry entry = Returns p) pre →
  parseEntry bad = Throws (InvalidRemappingEntry bad) →
  parsePathRemapping (pre ++ bad :: post) = Throws (InvalidRemappingEntry bad).
Proof.
  intros Hpre Hb. induction Hpre as [|e pre [p He] _ IH]; simpl.
  - rewrite Hb. reflexivity.
  - rewrite He. simpl. rewrite IH. reflexivity.
Qed.

(** X13: [parsePathRemapping] is all or nothing: it returns one parsed
    remapping per entry, in order, when every entry parses, and it throws
    for the first entry that the expression does not match, naming it; an
    entry without equals sign is never matched. *)
Theorem parsePathRemapping_all_or_first (entries : list (list codeUnit)) :
  (∀ parsed, Forall2 (λ entry p, parseEntry entry = Returns p) entries parsed →
             parsePathRemapping entries = Returns parsed)
  ∧ (∀ pre bad post, entries = pre ++ bad :: post →
       Forall (λ entry, ∃ p, parseEntry entry = Returns p) pre →
       rxRemapping bad = None ∨ equals ∉ bad →
       parsePathRemapping entries = Throws (InvalidRemappingEntry bad)).
Proof.
  split.
  - apply parsePathRemapping_all.
  - intros pre bad post -> Hpre Hbad. apply parsePathRemapping_first; [exact Hpre|].
    destruct Hbad as [Hnone|Hno].
    + unfold parseEntry. rewrite Hnone. reflexivity.
    + apply parseEntry_no_equals, Hno.
Qed.

Lemma parsePathRemapping_all_or_first_witness :
  parsePathRemapping [codes "a=b"; codes "no-sign"; codes "c=d"]
  = Throws (InvalidRemappingEntry (codes "no-sign")).
Proof.
  destruct (parsePathRemapping_all_or_first [codes "a=b"; codes "no-sign"; codes "c=d"])
    as (_ & H).
  apply (H [codes "a=b"] (codes "no-sign") [codes "c=d"] eq_refl).
  - constructor; [eexists; reflexivity | constructor].
  - right. absent.
Defined.

End RemappingFacts.
